(** * MCP-enabled chatbot: the orchestration engine and its Flask front end

    A shallow embedding of [src/mcp_chatbot_backend.py] (the LangGraph graph
    [START -> chat_node -> (tools -> chat_node)* -> END] with its
    checkpointer) and of [src/app_flask.py] (the synchronous routes that
    drive the graph through [run_async]).

    What lies outside the two files is a parameter, gathered in [World]:
    the reasoning service ([llm_with_tools.ainvoke]), the MCP tools behind
    [ToolNode], the recursion limit langgraph applies to a run,
    [uuid.uuid4] and [os.getcwd].  Time is counted in whole seconds on
    the clock of the background event loop.

    Requests are served one after the other.  The page route, the start-up
    banner and the interactive test modes of the backend are left out. *)

From Stdlib Require Import Ascii String.
From stdpp Require Import base strings pretty list gmap.

Local Open Scope string_scope.

(** ** Python values shared by the two files *)

(** The exceptions the modelled code can raise or let through. *)
Inductive Exception :=
| TimeoutError
| AttributeError (type_name attr : string)
| IndexError
| KeyError (key : string)
| ProviderError (reason : string)
| ToolException (reason : string)
| GraphRecursionError (message : string)
| HTTPException (description : string).

Definition squote : string := String "039"%char EmptyString.
Definition dquote : string := String "034"%char EmptyString.
Definition nl : string := String "010"%char EmptyString.

(** [str(e)], the text the routes put in their ["error"] field. *)
Definition str (e : Exception) : string :=
  match e with
  | TimeoutError => ""
  | AttributeError ty attr =>
      squote +:+ ty +:+ squote +:+ " object has no attribute " +:+
      squote +:+ attr +:+ squote
  | IndexError => "list index out of range"
  | KeyError key => squote +:+ key +:+ squote
  | ProviderError reason => reason
  | ToolException reason => reason
  | GraphRecursionError message => message
  | HTTPException description => description
  end.

Inductive Result (A : Type) :=
| Ok (a : A)
| Raise (e : Exception).
Arguments Ok {A} a.
Arguments Raise {A} e.

(** A value that an awaited call delivers after [seconds] on the loop. *)
Record Timed (A : Type) := { seconds : nat; value : A }.
Arguments seconds {A} t.
Arguments value {A} t.

(** [str.isspace] on the code points below 256, and [str.strip()]. *)
Definition isspace (c : ascii) : bool :=
  let n := nat_of_ascii c in
  (((9 <=? n) && (n <=? 13)) || ((28 <=? n) && (n <=? 32))
   || (n =? 133) || (n =? 160))%nat.

Fixpoint lstrip (s : string) : string :=
  match s with
  | EmptyString => EmptyString
  | String c s' => if isspace c then lstrip s' else s
  end.

Fixpoint rstrip (s : string) : string :=
  match s with
  | EmptyString => EmptyString
  | String c s' =>
      match rstrip s' with
      | EmptyString => if isspace c then EmptyString else String c EmptyString
      | r => String c r
      end
  end.

Definition strip (s : string) : string := rstrip (lstrip s).

(** ** langchain messages *)

Record ToolCall := { name : string; args : string; id : string }.

(** The message classes of [langchain_core.messages] that the program
    handles.  Only an [AIMessage] has the attribute [tool_calls]. *)
Inductive BaseMessage :=
| HumanMessage (content : string)
| AIMessage (content : string) (tool_calls : list ToolCall)
| ToolMessage (content : string) (tool_name : string) (tool_call_id : string)
| SystemMessage (content : string).

Definition content (m : BaseMessage) : string :=
  match m with
  | HumanMessage c | AIMessage c _ | ToolMessage c _ _ | SystemMessage c => c
  end.

(** [m.__class__.__name__] *)
Definition class_name (m : BaseMessage) : string :=
  match m with
  | HumanMessage _ => "HumanMessage"
  | AIMessage _ _ => "AIMessage"
  | ToolMessage _ _ _ => "ToolMessage"
  | SystemMessage _ => "SystemMessage"
  end.

(** [hasattr(m, "tool_calls") and m.tool_calls], as a truth value. *)
Definition pending_tool_calls (m : BaseMessage) : list ToolCall :=
  match m with
  | AIMessage _ calls => calls
  | _ => []
  end.

(** What the reasoning service answers: the fields of an [AIMessage]. *)
Record AIReply := { reply_content : string; reply_tool_calls : list ToolCall }.

Definition to_message (r : AIReply) : BaseMessage :=
  AIMessage (reply_content r) (reply_tool_calls r).

(** Everything the two files take from their environment. *)
Record World := {
  (** [llm_with_tools.ainvoke(messages)]: its latency, then a reply or an
      exception. *)
  llm_with_tools : list BaseMessage → Timed (Result AIReply);
  (** One tool call as [ToolNode] runs it: its latency, then the payload
      of the resulting [ToolMessage] (a result, or the text of an error
      that [ToolNode] turns into a message), or the exception that
      [ToolNode] lets through. *)
  run_tool : ToolCall → Timed (Result string);
  (** The recursion limit langgraph applies to [ainvoke] when the config
      names none, as here: its default, never below 1. *)
  recursion_limit : positive;
  (** The text of langgraph's [GraphRecursionError]. *)
  recursion_message : string;
  (** The n-th identifier [str(uuid.uuid4())] hands out. *)
  uuid4 : nat → string;
  (** [os.getcwd()] *)
  WORKING_DIRECTORY : string
}.

(** ** mcp_chatbot_backend.py *)

Module mcp_chatbot_backend.

(** [class ChatState(TypedDict)]: one channel, [messages]. *)
Record ChatState := { messages : list BaseMessage }.

(** The reducer of the [messages] channel.  Every message this program
    hands to it carries an identifier of its own, and on such input
    langgraph's [add_messages] appends. *)
Definition add_messages (left right : list BaseMessage) : list BaseMessage :=
  left ++ right.

(** The dictionary view of the channels: what [ainvoke] returns and what a
    state snapshot holds in [values]. *)
Definition values (s : ChatState) : gmap string (list BaseMessage) :=
  {[ "messages" := messages s ]}.

(** The graph's nodes, and the raised state in which a run stops when a
    node lets an exception through. *)
Inductive Node :=
| START
| chat_node_
| tools
| END
| RAISED (e : Exception).

Section Graph.
Context (w : World).

Definition SYSTEM_PROMPT : BaseMessage :=
  SystemMessage (
    "You are a helpful AI assistant with access to various tools through MCP servers." +:+ nl +:+
    nl +:+
    "Your working directory is: " +:+ WORKING_DIRECTORY w +:+ nl +:+
    nl +:+
    "TOOL USAGE GUIDELINES:" +:+ nl +:+
    "1. When tools are available, use them to provide accurate, real-time information" +:+ nl +:+
    "2. If a tool requires a " +:+ dquote +:+ "directory" +:+ dquote +:+
      " parameter, use: " +:+ dquote +:+ WORKING_DIRECTORY w +:+ dquote +:+ nl +:+
    "3. Call tools when they can help answer the user's question" +:+ nl +:+
    "4. After receiving tool results, interpret and present them in a clear, natural way" +:+ nl +:+
    "5. Don't show raw JSON unless the user specifically asks for it" +:+ nl +:+
    "6. Extract and highlight the most relevant information from tool responses" +:+ nl +:+
    "7. If a tool fails, explain the error and suggest alternatives" +:+ nl +:+
    nl +:+
    "IMPORTANT FILESYSTEM RULES:" +:+ nl +:+
    "- Never request full directory trees" +:+ nl +:+
    "- Always limit directory depth to 2 levels maximum" +:+ nl +:+
    "- Prefer listing folder names only" +:+ nl +:+
    "- Never return full file contents unless explicitly asked" +:+ nl +:+
    nl +:+
    nl +:+
    "RESPONSE STYLE:" +:+ nl +:+
    "- Be conversational and natural" +:+ nl +:+
    "- Summarize data clearly (e.g., " +:+ dquote +:+ "I found 5 accounts" +:+ dquote +:+
      " instead of showing raw JSON)" +:+ nl +:+
    "- Only show technical details if requested" +:+ nl +:+
    "- Format lists and data in a readable way").

(** [messages = [SYSTEM_PROMPT] + state["messages"]] *)
Definition chat_prompt (state : ChatState) : list BaseMessage :=
  [SYSTEM_PROMPT] ++ messages state.

(** [chat_node]: the update [{"messages": [response]}], or the exception
    of the reasoning service. *)
Definition chat_node (state : ChatState) : Timed (Result (list BaseMessage)) :=
  let answer := llm_with_tools w (chat_prompt state) in
  {| seconds := seconds answer;
     value := match value answer with
              | Ok response => Ok [to_message response]
              | Raise e => Raise e
              end |}.

(** [route_after_chat]; [state["messages"][-1]] raises on an empty list. *)
Definition route_after_chat (state : ChatState) : Result Node :=
  match last (messages state) with
  | None => Raise IndexError
  | Some last_message =>
      match pending_tool_calls last_message with
      | [] => Ok END
      | _ :: _ => Ok tools
      end
  end.

(** One call of the tool node: the [ToolMessage] that answers the call,
    or the exception let through. *)
Definition tool_result (c : ToolCall) : Timed (Result BaseMessage) :=
  {| seconds := seconds (run_tool w c);
     value := match value (run_tool w c) with
              | Ok payload => Ok (ToolMessage payload (name c) (id c))
              | Raise e => Raise e
              end |}.

(** [asyncio.gather]: the results in order once the slowest is there,
    or the earliest exception when it occurs. *)
Fixpoint gather {A} (outcomes : list (Timed (Result A))) : Timed (Result (list A)) :=
  match outcomes with
  | [] => {| seconds := 0; value := Ok [] |}
  | o :: outcomes' =>
      let others := gather outcomes' in
      match value o, value others with
      | Ok a, Ok l => {| seconds := Nat.max (seconds o) (seconds others); value := Ok (a :: l) |}
      | Raise e, Ok _ => {| seconds := seconds o; value := Raise e |}
      | Ok _, Raise e' => {| seconds := seconds others; value := Raise e' |}
      | Raise e, Raise e' =>
          if (seconds o <=? seconds others)%nat
          then {| seconds := seconds o; value := Raise e |}
          else {| seconds := seconds others; value := Raise e' |}
      end
  end.

(** [tool_node = ToolNode(mcp_tools)]: the pending calls of the last
    message run together; one [ToolMessage] per call, in call order,
    unless a call lets an exception through. *)
Definition tool_node (state : ChatState) : Timed (Result (list BaseMessage)) :=
  let calls := from_option pending_tool_calls [] (last (messages state)) in
  gather (tool_result <$> calls).

(** One run of the compiled graph on one thread.  [saver] is the
    checkpointer: the latest checkpoint of every thread.  [llm_calls] logs
    the message lists handed to the reasoning service. *)
Record Run := {
  thread_id : string;
  input : list BaseMessage;
  node : Node;
  state : ChatState;
  saver : gmap string ChatState;
  clock : nat;
  llm_calls : list (list BaseMessage);
  supersteps : nat
}.

(** [aget_state]: the latest checkpoint of a thread, if it has one. *)
Definition aget_state (saver : gmap string ChatState) (tid : string) : option ChatState :=
  saver !! tid.

Definition thread_messages (saver : gmap string ChatState) (tid : string) : list BaseMessage :=
  from_option messages [] (aget_state saver tid).

(** A node's update goes through the reducer and the new state is
    checkpointed before the run moves on. *)
Definition commit (r : Run) (update : list BaseMessage) (elapsed : nat) (next : Node) : Run :=
  let state' := {| messages := add_messages (messages (state r)) update |} in
  {| thread_id := thread_id r;
     input := input r;
     node := next;
     state := state';
     saver := <[thread_id r := state']> (saver r);
     clock := clock r + elapsed;
     llm_calls := llm_calls r;
     supersteps := supersteps r |}.

Definition fail (r : Run) (e : Exception) (elapsed : nat) : Run :=
  {| thread_id := thread_id r;
     input := input r;
     node := RAISED e;
     state := state r;
     saver := saver r;
     clock := clock r + elapsed;
     llm_calls := llm_calls r;
     supersteps := supersteps r |}.

(** The end of a super-step of a node.  The run has then made one more
    super-step; past the recursion limit it stops with langgraph's
    [GraphRecursionError], otherwise it goes on to [next]. *)
Definition proceed (r : Run) (next : Node) : Run :=
  {| thread_id := thread_id r;
     input := input r;
     node := if (Pos.to_nat (recursion_limit w) <? S (supersteps r))%nat
             then RAISED (GraphRecursionError (recursion_message w))
             else next;
     state := state r;
     saver := saver r;
     clock := clock r;
     llm_calls := llm_calls r;
     supersteps := S (supersteps r) |}.

Definition log_llm_call (r : Run) : Run :=
  {| thread_id := thread_id r;
     input := input r;
     node := node r;
     state := state r;
     saver := saver r;
     clock := clock r;
     llm_calls := llm_calls r ++ [chat_prompt (state r)];
     supersteps := supersteps r |}.

(** A run starts from the thread's latest checkpoint. *)
Definition load (r : Run) : Run :=
  {| thread_id := thread_id r;
     input := input r;
     node := node r;
     state := {| messages := thread_messages (saver r) (thread_id r) |};
     saver := saver r;
     clock := clock r;
     llm_calls := llm_calls r;
     supersteps := supersteps r |}.

(** The edges of the graph:
    [START -> chat_node], [chat_node -> route_after_chat],
    [tools -> chat_node].  The input is applied before the first
    super-step; a node that raises ends the run with nothing written. *)
Definition step (r : Run) : Run :=
  match node r with
  | START =>
      commit (load r) (input r) 0 chat_node_
  | chat_node_ =>
      let answer := chat_node (state r) in
      match value answer with
      | Raise e => fail (log_llm_call r) e (seconds answer)
      | Ok update =>
          let r' := commit (log_llm_call r) update (seconds answer) chat_node_ in
          match route_after_chat (state r') with
          | Ok next => proceed r' next
          | Raise e => fail r' e 0
          end
      end
  | tools =>
      let results := tool_node (state r) in
      match value results with
      | Raise e => fail r e (seconds results)
      | Ok update => proceed (commit r update (seconds results) chat_node_) chat_node_
      end
  | END | RAISED _ => r
  end.

Definition finished (r : Run) : bool :=
  match node r with
  | END | RAISED _ => true
  | _ => false
  end.

(** The run after [n] super-steps. *)
Fixpoint steps (n : nat) (r : Run) : Run :=
  match n with
  | 0 => r
  | S n' => steps n' (step r)
  end.

(** [chatbot.ainvoke(input, config={"configurable": {"thread_id": ...}})]
    as it starts. *)
Definition ainvoke (saver : gmap string ChatState) (tid : string)
    (input : list BaseMessage) : Run :=
  {| thread_id := tid;
     input := input;
     node := START;
     state := {| messages := [] |};
     saver := saver;
     clock := 0;
     llm_calls := [];
     supersteps := 0 |}.

End Graph.

End mcp_chatbot_backend.

(** ** app_flask.py *)

Module app_flask.
Import mcp_chatbot_backend.

(** A coroutine as the event loop runs it: it delivers a value or an
    exception after some seconds, or never does. *)
Inductive Coroutine (A : Type) :=
| Completes (after : nat) (outcome : Result A)
| Pending.
Arguments Completes {A} after outcome.
Arguments Pending {A}.

(** [future.result(timeout=...)] *)
Definition result {A} (future : Coroutine A) (timeout : nat) : Result A :=
  match future with
  | Completes after outcome =>
      if (after <=? timeout)%nat then outcome else Raise TimeoutError
  | Pending => Raise TimeoutError
  end.

(** [run_async]: hand the coroutine to the persistent loop and block on
    its future. *)
Definition run_async {A} (coro : Coroutine A) : Result A :=
  result coro 60.

(** The JSON values a request field may hold. *)
Inductive Json :=
| JNull
| JString (s : string)
| JOther (type_name : string).

(** The body of [POST /api/chat].  A field is [None] when its key is
    absent; [thread_id], when given, is a string or null. *)
Record ChatData := { message : option Json; thread_id_field : option string }.

Record HistoryEntry := { role : string; entry_content : string }.

(** The JSON bodies the routes answer with. *)
Inductive Reply :=
| ChatReply (response : string) (thread_id : string)
    (discovered_username : option (list BaseMessage))
| HistoryReply (history : list HistoryEntry) (thread_id : string)
| ThreadsReply (threads : gset string)
| NewThreadReply (thread_id : string)
| ErrorReply (error : string)
| MessageReply (message : string).

(** The ["success"] field. *)
Definition success (r : Reply) : bool :=
  match r with
  | ChatReply _ _ _ | HistoryReply _ _ | ThreadsReply _ | NewThreadReply _ => true
  | ErrorReply _ | MessageReply _ => false
  end.

(** A reply and its HTTP status. *)
Definition Response : Type := Reply * nat.

(** What the process holds between requests: the checkpointer of the
    compiled graph, the client's session, how many identifiers [uuid4]
    has handed out, and a log of the [bot.ainvoke] calls made. *)
Record App := {
  checkpointer : gmap string ChatState;
  session : option string;
  uuid_drawn : nat;
  invocations : list (string * string)
}.

Section Routes.
Context (w : World).

(** [get_thread_id]: the session's thread id, minted on first use. *)
Definition get_thread_id (a : App) : string * App :=
  match session a with
  | Some tid => (tid, a)
  | None =>
      let tid := uuid4 w (uuid_drawn a) in
      (tid, {| checkpointer := checkpointer a;
               session := Some tid;
               uuid_drawn := S (uuid_drawn a);
               invocations := invocations a |})
  end.

(** [data.get("thread_id") or get_thread_id()] *)
Definition chosen_thread_id (data : ChatData) (a : App) : string * App :=
  match thread_id_field data with
  | Some (String c s) => (String c s, a)
  | Some EmptyString | None => get_thread_id a
  end.

(** The coroutine [process_message()] once its run has finished. *)
Definition process_message (r : Run) : Coroutine (gmap string (list BaseMessage)) :=
  match node r with
  | END => Completes (clock r) (Ok (values (state r)))
  | RAISED e => Completes (clock r) (Raise e)
  | _ => Pending
  end.

(** The run behind [bot.ainvoke({"messages": [HumanMessage(...)]}, ...)]
    in [process_message], after [n] super-steps. *)
Definition chat_run (n : nat) (thread_id user_message : string) (a : App) : Run :=
  steps w n (ainvoke (checkpointer a) thread_id [HumanMessage user_message]).

(** The handler's [except Exception as e] branch. *)
Definition server_error (e : Exception) : Response := (ErrorReply (str e), 500).

(** [chat], the route [POST /api/chat].  [n] is the number of super-steps
    the loop gives the run; the reply is [None] while the run has not
    finished within them. *)
Definition chat (n : nat) (request_json : option ChatData) (a : App)
    : option Response * App :=
  let data := default {| message := None; thread_id_field := None |} request_json in
  match default (JString "") (message data) with
  | JNull => (Some (server_error (AttributeError "NoneType" "strip")), a)
  | JOther ty => (Some (server_error (AttributeError ty "strip")), a)
  | JString s =>
      let user_message := strip s in
      let '(thread_id, a1) := chosen_thread_id data a in
      if decide (user_message = "") then
        (Some (ErrorReply "No message provided", 400), a1)
      else
        let r := chat_run n thread_id user_message a1 in
        let a2 := {| checkpointer := saver r;
                     session := session a1;
                     uuid_drawn := uuid_drawn a1;
                     invocations := invocations a1 ++ [(thread_id, user_message)] |} in
        if finished r then
          match run_async (process_message r) with
          | Raise e => (Some (server_error e), a2)
          | Ok result =>
              match result !! "messages" with
              | None => (Some (server_error (KeyError "messages")), a2)
              | Some messages =>
                  match last messages with
                  | None => (Some (server_error IndexError), a2)
                  | Some last_msg =>
                      (Some (ChatReply (content last_msg) thread_id
                               (result !! "discovered_username"), 200), a2)
                  end
              end
          end
        else (None, a2)
  end.

(** What [request.json] is for a request: it raises (no JSON body, or
    not JSON at all), it is a JSON value other than an object that is
    true in Python, or it is an object or a value that is false in
    Python, which [or {}] replaces by the empty object. *)
Inductive Body :=
| NoJson (e : Exception)
| JsonValue (type_name : string)
| JsonData (request_json : option ChatData).

(** [chat] on any request: [request.json] and [data.get] are inside the
    handler's [try]. *)
Definition chat_route (n : nat) (body : Body) (a : App) : option Response * App :=
  match body with
  | NoJson e => (Some (server_error e), a)
  | JsonValue type_name => (Some (server_error (AttributeError type_name "get")), a)
  | JsonData request_json => chat n request_json a
  end.

(** [retrieve_all_threads] of the backend, as the route uses it. *)
Definition retrieve_all_threads (a : App) : gset string := dom (checkpointer a).

(** [get_threads], the route [GET /api/threads]. *)
Definition get_threads (a : App) : Response :=
  match run_async (Completes 0 (Ok (retrieve_all_threads a))) with
  | Ok threads => (ThreadsReply threads, 200)
  | Raise e => server_error e
  end.

(** [new_thread], the route [POST /api/new-thread]. *)
Definition new_thread (a : App) : Response * App :=
  let tid := uuid4 w (uuid_drawn a) in
  ((NewThreadReply tid, 200),
   {| checkpointer := checkpointer a;
      session := Some tid;
      uuid_drawn := S (uuid_drawn a);
      invocations := invocations a |}).

(** One element of the list comprehension in [fetch_history]. *)
Definition history_entry (msg : BaseMessage) : HistoryEntry :=
  {| role := if decide (class_name msg = "HumanMessage") then "user" else "assistant";
     entry_content := content msg |}.

(** The inner coroutine [fetch_history()] of [get_history]. *)
Definition fetch_history (a : App) (thread_id : string) : list HistoryEntry :=
  match aget_state (checkpointer a) thread_id with
  | Some state =>
      let messages := default [] (values state !! "messages") in
      history_entry <$> messages
  | None => []
  end.

(** [get_history], the route [GET /api/history/<thread_id>]. *)
Definition get_history (thread_id : string) (a : App) : Response :=
  match run_async (Completes 0 (Ok (fetch_history a thread_id))) with
  | Ok history => (HistoryReply history thread_id, 200)
  | Raise e => server_error e
  end.

(** [clear_thread], the route [DELETE /api/clear/<thread_id>]. *)
Definition clear_thread (thread_id : string) (a : App) : Response * App :=
  ((MessageReply "Thread clearing not supported. Create a new thread instead.", 501), a).

End Routes.

End app_flask.

(** ** Properties as the specification words them, and sample worlds *)

Module spec.
Import mcp_chatbot_backend app_flask.

(** The role the specification's data model gives a message. *)
Definition spec_role (m : BaseMessage) : string :=
  match m with
  | HumanMessage _ => "user"
  | AIMessage _ _ => "assistant"
  | ToolMessage _ _ _ => "tool"
  | SystemMessage _ => "system"
  end.

(** The specification's [history]: the persisted messages filtered to the
    user and assistant roles. *)
Definition history_per_spec (persisted : list BaseMessage) : list HistoryEntry :=
  (λ m, {| role := spec_role m; entry_content := content m |}) <$>
  filter (λ m, spec_role m = "user" ∨ spec_role m = "assistant") persisted.

(** A request whose message text is empty or missing: no body, no
    ["message"] key, or a string that [strip] leaves empty. *)
Definition blank_message (request_json : option ChatData) : Prop :=
  match request_json with
  | None => True
  | Some data =>
      match message data with
      | None => True
      | Some (JString s) => strip s = ""
      | Some _ => False
      end
  end.

(** The specification's reading of a [submit] without thread id: an
    identifier is drawn from [uuid4] for this call and is the one
    answered. *)
Definition mints_new_thread (w : World) (n : nat) (data : ChatData) (a : App) : Prop :=
  ∃ response du a',
    chat w n (Some data) a
      = (Some (ChatReply response (uuid4 w (uuid_drawn a)) du, 200), a')
    ∧ uuid_drawn a' = S (uuid_drawn a).

(** Successive calls of [chat], each with the super-steps it is given. *)
Definition serve (w : World) (calls : list (nat * option ChatData)) (a : App) : App :=
  foldl (λ a call, (chat w call.1 call.2 a).2) a calls.

Definition fresh_app : App :=
  {| checkpointer := ∅; session := None; uuid_drawn := 0; invocations := [] |}.

Definition say (text : string) : option ChatData :=
  Some {| message := Some (JString text); thread_id_field := None |}.

Definition list_directory : ToolCall :=
  {| name := "list_directory"; args := "{}"; id := "call_1" |}.

Definition thread_name (n : nat) : string := "thread-" +:+ pretty n.

(** A reasoning service that asks for one tool and answers once it has
    the tool's result. *)
Definition tool_world : World :=
  {| llm_with_tools := λ prompt,
       match last prompt with
       | Some (ToolMessage _ _ _) =>
           {| seconds := 1;
              value := Ok {| reply_content := "You have two files.";
                             reply_tool_calls := [] |} |}
       | _ =>
           {| seconds := 1;
              value := Ok {| reply_content := "";
                             reply_tool_calls := [list_directory] |} |}
       end;
     run_tool := λ _, {| seconds := 2; value := Ok "a.txt b.txt" |};
     recursion_limit := 25;
     recursion_message := "Recursion limit of 25 reached without hitting a stop condition.";
     uuid4 := thread_name;
     WORKING_DIRECTORY := "/srv/app" |}.

(** A reasoning service whose every reply asks for a tool again. *)
Definition looping_world : World :=
  {| llm_with_tools := λ _,
       {| seconds := 0;
          value := Ok {| reply_content := ""; reply_tool_calls := [list_directory] |} |};
     run_tool := λ _, {| seconds := 0; value := Ok "a.txt b.txt" |};
     recursion_limit := 25;
     recursion_message := "Recursion limit of 25 reached without hitting a stop condition.";
     uuid4 := thread_name;
     WORKING_DIRECTORY := "/srv/app" |}.

(** A reasoning service that answers at once, after [latency] seconds. *)
Definition plain_world (latency : nat) : World :=
  {| llm_with_tools := λ _,
       {| seconds := latency;
          value := Ok {| reply_content := "Hello!"; reply_tool_calls := [] |} |};
     run_tool := λ _, {| seconds := 0; value := Ok "" |};
     recursion_limit := 25;
     recursion_message := "Recursion limit of 25 reached without hitting a stop condition.";
     uuid4 := thread_name;
     WORKING_DIRECTORY := "/srv/app" |}.

(** The application after one tool-using conversation turn. *)
Definition app_after_tool_turn : App :=
  (chat tool_world 4 (say "list my files") fresh_app).2.

End spec.


(** ** Invariants of a run *)

Module invariants.
Import mcp_chatbot_backend.

(** Past [START], the state a run works on is the thread's latest
    checkpoint. *)
Definition synced (r : Run) : Prop :=
  node r = START ∨ saver r !! thread_id r = Some (state r).

(** Every thread's persisted messages in [s1] are an initial segment of
    its persisted messages in [s2]. *)
Definition extends (s1 s2 : gmap string ChatState) : Prop :=
  ∀ tid, thread_messages s1 tid `prefix_of` thread_messages s2 tid.

(** Where [route_after_chat] sends a run whose last message is [m]. *)
Definition route_of (m : BaseMessage) : Node :=
  match pending_tool_calls m with
  | [] => END
  | _ :: _ => tools
  end.

(** Where a run stands against the recursion limit [limit]: within it;
    stopped by a node's exception within it; or one super-step past it,
    stopped by langgraph. *)
Definition bounded (w : World) (r : Run) : Prop :=
  let limit := Pos.to_nat (recursion_limit w) in
  ((supersteps r ≤ limit)%nat ∧ (length (llm_calls r) ≤ supersteps r)%nat)
  ∨ (finished r = true ∧ (supersteps r ≤ limit)%nat
     ∧ (length (llm_calls r) ≤ S (supersteps r))%nat)
  ∨ (node r = RAISED (GraphRecursionError (recursion_message w))
     ∧ supersteps r = S limit ∧ (length (llm_calls r) ≤ S limit)%nat).

End invariants.

(** ** More invariants of a run, and readings of a request *)

Module shape.
Import mcp_chatbot_backend app_flask.

(** The messages the graph's own nodes produce: the replies of
    [chat_node] and the results of [tool_node]. *)
Definition from_graph (m : BaseMessage) : bool :=
  match m with
  | AIMessage _ _ | ToolMessage _ _ _ => true
  | HumanMessage _ | SystemMessage _ => false
  end.

(** The run works on its thread's latest checkpoint, which is [base],
    then [input], then messages of the graph's nodes. *)
Definition grown (base input : list BaseMessage) (r : Run) : Prop :=
  saver r !! thread_id r = Some (state r)
  ∧ ∃ rest, messages (state r) = (base ++ input ++ rest)%list
            ∧ Forall (λ m, from_graph m = true) rest.

(** A run that has ended holds a final answer: its last message is an
    [AIMessage] without tool call. *)
Definition answered (r : Run) : Prop :=
  node r = END → ∃ text, last (messages (state r)) = Some (AIMessage text []).

(** A run that stands at [tools] has tool calls to answer: its last
    message is an [AIMessage] with at least one call. *)
Definition called (r : Run) : Prop :=
  node r = tools →
  ∃ text calls, calls ≠ [] ∧ last (messages (state r)) = Some (AIMessage text calls).

(** A reasoning service that never asks for a tool. *)
Definition never_calling (w : World) : Prop :=
  ∀ prompt reply, value (llm_with_tools w prompt) = Ok reply → reply_tool_calls reply = [].


(** What [request.json or {}] gives. *)
Definition data_of (request_json : option ChatData) : ChatData :=
  default {| message := None; thread_id_field := None |} request_json.

(** The ["role"] values of a history that are ["user"]. *)
Definition user_entries (history : list HistoryEntry) : list HistoryEntry :=
  filter (λ e, role e = "user") history.

End shape.

(** ** The console modes of the backend *)

Module console.
Import mcp_chatbot_backend.

(** [str.lower()] on the code points below 256. *)
Definition lower_char (c : ascii) : ascii :=
  let n := nat_of_ascii c in
  if (((65 <=? n) && (n <=? 90))
      || ((192 <=? n) && (n <=? 222) && negb (n =? 215)))%nat
  then ascii_of_nat (n + 32)
  else c.

Fixpoint lower (s : string) : string :=
  match s with
  | EmptyString => EmptyString
  | String c s' => String (lower_char c) (lower s')
  end.

(** What the console modes print.  Fixed texts are named; a line built
    from a value carries the value. *)
Inductive Printed :=
| PrintBanner
| PrintStarted (thread_prefix : string)
| PrintGoodbye
| PrintTotal (threads : nat)
| PrintThread (thread : string)
| PrintMore (threads : nat)
| PrintBlank
| PrintAssistant (text : string)
| PrintTest (i : nat) (question : string)
| PrintResponse (text : string)
| PrintError (error : string)
| PrintCompleted.

(** What [input("You: ")] delivers: a line, with the super-steps the run
    it may start is given, or Ctrl-C. *)
Inductive Input :=
| Line (text : string) (n : nat)
| KeyboardInterrupt.

(** Where the loop stands: reading input, stuck in an [await] that has
    not returned, or left. *)
Inductive Mode :=
| Reading
| Awaiting
| Stopped.

Record Console := {
  current_thread : string;
  db : gmap string ChatState;
  drawn : nat;
  printed : list Printed;
  mode : Mode
}.

Definition print (c : Console) (lines : list Printed) : Console :=
  {| current_thread := current_thread c;
     db := db c;
     drawn := drawn c;
     printed := printed c ++ lines;
     mode := mode c |}.

Definition set_mode (c : Console) (m : Mode) : Console :=
  {| current_thread := current_thread c;
     db := db c;
     drawn := drawn c;
     printed := printed c;
     mode := m |}.

Definition set_db (c : Console) (saver : gmap string ChatState) : Console :=
  {| current_thread := current_thread c;
     db := saver;
     drawn := drawn c;
     printed := printed c;
     mode := mode c |}.

Section Modes.
Context (w : World).

(** [retrieve_all_threads]: the thread ids that have a checkpoint, each
    once, as a list. *)
Definition retrieve_all_threads (saver : gmap string ChatState) : list string :=
  elements (dom saver).

(** The listing of the ['threads'] command. *)
Definition print_threads (threads : list string) : list Printed :=
  [PrintTotal (length threads)]
  ++ (PrintThread <$> take 5 threads)
  ++ (if decide (5 < length threads)%nat then [PrintMore (length threads - 5)] else [])
  ++ [PrintBlank].

(** [result = await chatbot.ainvoke(...)], then the last message is
    printed with [show] if it is an [AIMessage]; an exception is printed
    by the [except Exception] clause. *)
Definition invoke_and_print (show : string → Printed) (text : string) (n : nat)
    (c : Console) : Console :=
  let r := steps w n (ainvoke (db c) (current_thread c) [HumanMessage text]) in
  let c' := set_db c (saver r) in
  match node r with
  | END =>
      match values (state r) !! "messages" with
      | None => print c' [PrintError (str (KeyError "messages"))]
      | Some messages =>
          match last messages with
          | None => print c' [PrintError (str IndexError)]
          | Some (AIMessage text _) => print c' [show text]
          | Some _ => c'
          end
      end
  | RAISED e => print c' [PrintError (str e)]
  | START | chat_node_ | tools => set_mode c' Awaiting
  end.

(** One turn of the [while True] loop of [interactive_test] on a line. *)
Definition interactive_line (line : string) (n : nat) (c : Console) : Console :=
  let user_input := strip line in
  if decide (user_input = "") then c
  else if decide (lower user_input ∈ ["quit"; "exit"]) then
    set_mode (print c [PrintGoodbye]) Stopped
  else if decide (lower user_input = "new") then
    let thread_id := uuid4 w (drawn c) in
    {| current_thread := thread_id;
       db := db c;
       drawn := S (drawn c);
       printed := printed c ++ [PrintStarted (substring 0 8 thread_id)];
       mode := mode c |}
  else if decide (lower user_input = "threads") then
    print c (print_threads (retrieve_all_threads (db c)))
  else invoke_and_print PrintAssistant user_input n c.

Definition interactive_turn (c : Console) (i : Input) : Console :=
  match mode c with
  | Reading =>
      match i with
      | Line line n => interactive_line line n c
      | KeyboardInterrupt => set_mode (print c [PrintGoodbye]) Stopped
      end
  | Awaiting | Stopped => c
  end.

(** [interactive_test] on the input it is given, from a checkpointer and
    the number of identifiers already drawn. *)
Definition interactive_test (saver : gmap string ChatState) (drawn0 : nat)
    (inputs : list Input) : Console :=
  let thread_id := uuid4 w drawn0 in
  foldl interactive_turn
    {| current_thread := thread_id;
       db := saver;
       drawn := S drawn0;
       printed := [PrintBanner; PrintStarted (substring 0 8 thread_id)];
       mode := Reading |}
    inputs.

Definition test_questions : list string :=
  ["Hello! What can you help me with?"; "What tools do you have access to?"].

(** The [for] loop of [automated_test] from question number [i] on;
    [budget i] is the number of super-steps the run of question [i] is
    given. *)
Fixpoint ask_questions (i : nat) (questions : list string) (budget : nat → nat)
    (c : Console) : Console :=
  match questions with
  | [] => set_mode (print c [PrintCompleted]) Stopped
  | question :: questions' =>
      let c1 := invoke_and_print PrintResponse question (budget i)
                  (print c [PrintTest i question]) in
      match mode c1 with
      | Reading => ask_questions (S i) questions' budget c1
      | Awaiting | Stopped => c1
      end
  end.

(** [automated_test] *)
Definition automated_test (saver : gmap string ChatState) (drawn0 : nat)
    (budget : nat → nat) : Console :=
  ask_questions 1 test_questions budget
    {| current_thread := uuid4 w drawn0;
       db := saver;
       drawn := S drawn0;
       printed := [PrintBanner];
       mode := Reading |}.

End Modes.

(** A reasoning service that fails on every call. *)
Definition failing_world : World :=
  {| llm_with_tools := λ _, {| seconds := 1; value := Raise (ProviderError "quota exceeded") |};
     run_tool := λ _, {| seconds := 0; value := Ok "" |};
     recursion_limit := 25;
     recursion_message := "Recursion limit of 25 reached without hitting a stop condition.";
     uuid4 := spec.thread_name;
     WORKING_DIRECTORY := "/srv/app" |}.

(** A reasoning service that asks for a tool, and a tool that raises. *)
Definition broken_tool_world : World :=
  {| llm_with_tools := λ _,
       {| seconds := 1;
          value := Ok {| reply_content := "";
                         reply_tool_calls := [spec.list_directory] |} |};
     run_tool := λ _, {| seconds := 2; value := Raise (ToolException "connection closed") |};
     recursion_limit := 25;
     recursion_message := "Recursion limit of 25 reached without hitting a stop condition.";
     uuid4 := spec.thread_name;
     WORKING_DIRECTORY := "/srv/app" |}.

End console.

(** ** The graph *)

Module graph_facts.
Import mcp_chatbot_backend invariants shape.

(** [gather] delivers a list exactly when every outcome is a value. *)
Lemma gather_ok_inv {A} (outcomes : list (Timed (Result A))) (l : list A) :
  value (gather outcomes) = Ok l → Forall2 (λ o a, value o = Ok a) outcomes l.
Proof.
  revert l. induction outcomes as [|o outcomes IH]; intros l; cbn [gather value].
  - intros [= <-]. constructor.
  - destruct (value o) as [a|e] eqn:Ho, (value (gather outcomes)) as [l'|e'] eqn:Hg;
      cbn [value]; try done.
    + intros [= <-]. constructor; [done|]. by apply IH.
    + by destruct (seconds o <=? seconds (gather outcomes))%nat.
Qed.

Lemma gather_all_ok {A} (outcomes : list (Timed (Result A))) (l : list A) :
  Forall2 (λ o a, value o = Ok a) outcomes l → value (gather outcomes) = Ok l.
Proof.
  induction 1 as [|o a outcomes l Ho _ IH]; [done|].
  cbn [gather]. by rewrite Ho, IH.
Qed.

(** The exception [gather] raises is the exception of one outcome. *)
Lemma gather_raise_inv {A} (outcomes : list (Timed (Result A))) (e : Exception) :
  value (gather outcomes) = Raise e → Exists (λ o, value o = Raise e) outcomes.
Proof.
  induction outcomes as [|o outcomes IH]; cbn [gather value]; [done|].
  destruct (value o) as [a|e1] eqn:Ho, (value (gather outcomes)) as [l'|e'] eqn:Hg;
    cbn [value]; try done.
  - intros [= <-]. apply Exists_cons_tl. by apply IH.
  - intros [= <-]. by apply Exists_cons_hd.
  - destruct (seconds o <=? seconds (gather outcomes))%nat; cbn [value]; intros [= <-].
    + by apply Exists_cons_hd.
    + apply Exists_cons_tl. by apply IH.
Qed.

(** As soon as one outcome is an exception, [gather] raises. *)
Lemma gather_some_raise {A} (outcomes : list (Timed (Result A))) :
  Exists (λ o, ∃ e, value o = Raise e) outcomes → ∃ e, value (gather outcomes) = Raise e.
Proof.
  induction 1 as [o outcomes [e Ho]|o outcomes _ [e' IH]]; cbn [gather].
  - rewrite Ho. destruct (value (gather outcomes)); [by eexists|].
    destruct (seconds o <=? seconds (gather outcomes))%nat; by eexists.
  - rewrite IH. destruct (value o); [by eexists|].
    destruct (seconds o <=? seconds (gather outcomes))%nat; by eexists.
Qed.

Section WithWorld.
Context (w : World).

Lemma route_after_chat_snoc (l : list BaseMessage) (m : BaseMessage) :
  route_after_chat {| messages := l ++ [m] |} = Ok (route_of m).
Proof.
  unfold route_after_chat, route_of; cbn [messages].
  rewrite last_snoc. by destruct (pending_tool_calls m).
Qed.

(** The chat step, with the routing decision resolved. *)
Lemma step_chat_node (r : Run) :
  node r = chat_node_ →
  step w r =
    let answer := llm_with_tools w (chat_prompt w (state r)) in
    match value answer with
    | Ok reply =>
        proceed w (commit (log_llm_call w r) [to_message reply] (seconds answer) chat_node_)
                (route_of (to_message reply))
    | Raise e => fail (log_llm_call w r) e (seconds answer)
    end.
Proof.
  intros Hn. unfold step. rewrite Hn. unfold chat_node. cbn [value seconds].
  destruct (value (llm_with_tools w (chat_prompt w (state r)))) as [reply|e]; [|done].
  cbn [commit state log_llm_call add_messages].
  by rewrite route_after_chat_snoc.
Qed.

Lemma step_start (r : Run) :
  node r = START → step w r = commit (load r) (input r) 0 chat_node_.
Proof. intros Hn. unfold step. by rewrite Hn. Qed.

Lemma step_tools (r : Run) :
  node r = tools →
  step w r =
    match value (tool_node w (state r)) with
    | Ok update =>
        proceed w (commit r update (seconds (tool_node w (state r))) chat_node_) chat_node_
    | Raise e => fail r e (seconds (tool_node w (state r)))
    end.
Proof. intros Hn. unfold step. by rewrite Hn. Qed.

Lemma step_finished (r : Run) : finished r = true → step w r = r.
Proof. unfold finished, step. by destruct (node r). Qed.

(** What a step can do to the store: nothing, or one checkpoint for the
    run's thread that appends to the state the step worked on. *)
Lemma step_store (r : Run) :
  (saver (step w r) = saver r ∧ state (step w r) = state r)
  ∨ ∃ old update,
      state (step w r) = {| messages := add_messages old update |}
      ∧ saver (step w r) = <[thread_id r := state (step w r)]> (saver r)
      ∧ ((node r = START ∧ old = thread_messages (saver r) (thread_id r)
          ∧ update = input r)
         ∨ (node r ≠ START ∧ old = messages (state r)
            ∧ Forall (λ m, from_graph m = true) update)).
Proof.
  destruct (node r) eqn:Hn.
  - right. rewrite (step_start r Hn). eexists _, _. split_and!; [done..|]. by left.
  - rewrite (step_chat_node r Hn). cbn zeta.
    destruct (value (llm_with_tools w (chat_prompt w (state r)))) as [reply|e];
      [|by left].
    right. eexists _, _. split_and!; [done..|]. right.
    split_and!; [done..|]. by repeat constructor.
  - rewrite (step_tools r Hn).
    destruct (value (tool_node w (state r))) as [update|e] eqn:Ht; [|by left].
    right. eexists _, _. split_and!; [done..|]. right. split_and!; [done..|].
    unfold tool_node in Ht. apply gather_ok_inv in Ht.
    apply Forall2_fmap_l in Ht.
    induction Ht as [|c m calls update Hc _ IH]; [done|]. constructor; [|done].
    unfold tool_result, compose in Hc. cbn [value] in Hc.
    revert Hc. destruct (value (run_tool w c)); [by intros [= <-]|done].
  - left. rewrite step_finished; [done|]. unfold finished. by rewrite Hn.
  - left. rewrite step_finished; [done|]. unfold finished. by rewrite Hn.
Qed.

Lemma steps_finished (n : nat) (r : Run) : finished r = true → steps w n r = r.
Proof.
  induction n as [|n IH]; [done|]. intros Hf. cbn [steps].
  rewrite (step_finished r Hf). by apply IH.
Qed.

Lemma steps_add (n m : nat) (r : Run) : steps w (n + m) r = steps w m (steps w n r).
Proof. revert r. induction n as [|n IH]; intros r; [done|]. cbn [steps Nat.add]. apply IH. Qed.

(** Once a run has finished, further super-steps change nothing. *)
Lemma steps_finished_le (n m : nat) (r : Run) :
  (n ≤ m)%nat → finished (steps w n r) = true → steps w m r = steps w n r.
Proof.
  intros Hle Hf. replace m with (n + (m - n)) by lia.
  rewrite steps_add. by apply steps_finished.
Qed.

Lemma step_thread_id (r : Run) : thread_id (step w r) = thread_id r.
Proof.
  destruct (node r) eqn:Hn.
  - unfold step. by rewrite Hn.
  - rewrite (step_chat_node r Hn). cbn zeta.
    by destruct (value (llm_with_tools w (chat_prompt w (state r)))).
  - rewrite (step_tools r Hn). by destruct (value (tool_node w (state r))).
  - rewrite step_finished; [done|]. unfold finished. by rewrite Hn.
  - rewrite step_finished; [done|]. unfold finished. by rewrite Hn.
Qed.

Lemma steps_thread_id (n : nat) (r : Run) : thread_id (steps w n r) = thread_id r.
Proof.
  revert r. induction n as [|n IH]; intros r; [done|].
  cbn [steps]. by rewrite IH, step_thread_id.
Qed.

Lemma commit_synced (r : Run) update elapsed next : synced (commit r update elapsed next).
Proof. right. cbn [commit saver thread_id state]. apply lookup_insert_eq. Qed.

Lemma step_synced (r : Run) : synced r → synced (step w r).
Proof.
  intros [Hs|Hs].
  - rewrite (step_start r Hs). apply commit_synced.
  - right. rewrite step_thread_id.
    destruct (step_store r) as [[-> ->]|(old & update & Hst & -> & _)]; [done|].
    apply lookup_insert_eq.
Qed.

Lemma steps_synced (n : nat) (r : Run) : synced r → synced (steps w n r).
Proof.
  revert r. induction n as [|n IH]; intros r Hs; [done|].
  cbn [steps]. by apply IH, step_synced.
Qed.

Lemma ainvoke_synced saver tid input : synced (ainvoke saver tid input).
Proof. by left. Qed.

Lemma extends_refl s : extends s s.
Proof. by intros tid. Qed.

Lemma extends_trans s1 s2 s3 : extends s1 s2 → extends s2 s3 → extends s1 s3.
Proof. intros H1 H2 tid. etrans; [apply H1 | apply H2]. Qed.

(** Checkpointing [old ++ update] for a thread whose persisted messages
    are [old] only extends the store. *)
Lemma extends_insert (s : gmap string ChatState) tid update :
  extends s (<[tid := {| messages := add_messages (thread_messages s tid) update |}]> s).
Proof.
  intros t. unfold thread_messages, aget_state.
  destruct (decide (tid = t)) as [->|Hne].
  - rewrite lookup_insert_eq. cbn. unfold add_messages. by apply prefix_app_r.
  - by rewrite lookup_insert_ne.
Qed.

Lemma commit_extends (r : Run) update elapsed next :
  saver r !! thread_id r = Some (state r) →
  extends (saver r) (saver (commit r update elapsed next)).
Proof.
  intros Hs. cbn [commit saver].
  replace (messages (state r)) with (thread_messages (saver r) (thread_id r)).
  - apply extends_insert.
  - unfold thread_messages, aget_state. by rewrite Hs.
Qed.

Lemma step_extends (r : Run) : synced r → extends (saver r) (saver (step w r)).
Proof.
  intros Hs.
  destruct (step_store r)
    as [[-> _]|(old & update & -> & -> & [(_ & -> & _)|(Hn & -> & _)])].
  - apply extends_refl.
  - apply extends_insert.
  - destruct Hs as [Hs|Hs]; [done|].
    replace (messages (state r)) with (thread_messages (saver r) (thread_id r)).
    + apply extends_insert.
    + unfold thread_messages, aget_state. by rewrite Hs.
Qed.

Lemma step_other_threads (r : Run) (tid : string) :
  tid ≠ thread_id r → saver (step w r) !! tid = saver r !! tid.
Proof.
  intros Hne. destruct (step_store r) as [[-> _]|(old & update & _ & -> & _)]; [done|].
  by rewrite lookup_insert_ne.
Qed.

(** A run writes checkpoints for its own thread only. *)
Lemma steps_other_threads (n : nat) (r : Run) (tid : string) :
  tid ≠ thread_id r → saver (steps w n r) !! tid = saver r !! tid.
Proof.
  revert r. induction n as [|n IH]; intros r Hne; [done|].
  cbn [steps]. rewrite IH by (by rewrite step_thread_id).
  by apply step_other_threads.
Qed.

(** However many super-steps a run is given, finished or not, the store
    it leaves extends the store it started from. *)
Lemma steps_extends (n : nat) (r : Run) :
  synced r → extends (saver r) (saver (steps w n r)).
Proof.
  revert r. induction n as [|n IH]; intros r Hs; [apply extends_refl|].
  cbn [steps]. eapply extends_trans; [by apply step_extends|].
  by apply IH, step_synced.
Qed.

End WithWorld.

End graph_facts.

(** ** The chat/tools cycle *)

Module graph_claims.
Import mcp_chatbot_backend invariants shape graph_facts spec console.

Section WithWorld.
Context (w : World).

Lemma proceed_node_within (r : Run) (next : Node) :
  (S (supersteps r) ≤ Pos.to_nat (recursion_limit w))%nat → node (proceed w r next) = next.
Proof.
  intros Hle. cbn [proceed node].
  by rewrite (proj2 (Nat.ltb_ge _ _) Hle).
Qed.

Lemma proceed_node_past (r : Run) (next : Node) :
  (Pos.to_nat (recursion_limit w) < S (supersteps r))%nat →
  node (proceed w r next) = RAISED (GraphRecursionError (recursion_message w)).
Proof.
  intros Hlt. cbn [proceed node].
  by rewrite (proj2 (Nat.ltb_lt _ _) Hlt).
Qed.

Lemma proceed_bounded (r : Run) (next : Node) :
  (supersteps r ≤ Pos.to_nat (recursion_limit w))%nat →
  (length (llm_calls r) ≤ S (supersteps r))%nat →
  bounded w (proceed w r next).
Proof.
  intros Hs Hc. unfold bounded. cbn [proceed supersteps llm_calls node].
  destruct (Pos.to_nat (recursion_limit w) <? S (supersteps r))%nat eqn:Hl.
  - apply Nat.ltb_lt in Hl. right; right. split_and!; [done|lia|lia].
  - apply Nat.ltb_ge in Hl. left. done.
Qed.

Lemma step_bounded (r : Run) : bounded w r → bounded w (step w r).
Proof.
  intros Hb. destruct (finished r) eqn:Hf; [by rewrite step_finished|].
  destruct Hb as [[Hs Hc]|[[Hb _]|[Hb _]]];
    [|congruence|unfold finished in Hf; by rewrite Hb in Hf].
  unfold finished in Hf. destruct (node r) eqn:Hn; try done.
  - rewrite (step_start w r Hn). by left.
  - rewrite (step_chat_node w r Hn). cbn zeta.
    destruct (value (llm_with_tools w (chat_prompt w (state r)))).
    + apply proceed_bounded; cbn [commit log_llm_call supersteps llm_calls]; [done|].
      rewrite length_app. cbn [length]. lia.
    + right; left. cbn [fail log_llm_call supersteps llm_calls].
      split_and!; [done..|]. rewrite length_app. cbn [length]. lia.
  - rewrite (step_tools w r Hn).
    destruct (value (tool_node w (state r))).
    + apply proceed_bounded; cbn [commit supersteps llm_calls]; [done|lia].
    + right; left. by cbn [fail supersteps llm_calls]; split_and!; [done..|lia].
Qed.

Lemma run_bounded sv tid inp (n : nat) : bounded w (steps w n (ainvoke sv tid inp)).
Proof.
  induction n as [|n IH].
  - left. cbn. split; lia.
  - replace (S n) with (n + 1)%nat by lia. rewrite steps_add. by apply step_bounded.
Qed.

(** After the input and [k] super-steps of nodes a run has finished, or
    it has made exactly [k] super-steps and is within the limit. *)
Lemma run_progress sv tid inp (k : nat) :
  let r := steps w (1 + k) (ainvoke sv tid inp) in
  finished r = true
  ∨ (node r ≠ START ∧ supersteps r = k ∧ (k ≤ Pos.to_nat (recursion_limit w))%nat).
Proof.
  induction k as [|k IH]; cbv zeta in *.
  - right. cbn [Nat.add steps]. rewrite (step_start w (ainvoke _ _ _)) by done.
    split_and!; [done..|]. cbn. lia.
  - replace (1 + S k)%nat with ((1 + k) + 1)%nat by lia. rewrite steps_add.
    set (r := steps w (1 + k) (ainvoke sv tid inp)) in *. cbn [steps].
    destruct IH as [Hf|(Hns & Hs & Hk)]; [left; by rewrite step_finished|].
    destruct (node r) eqn:Hn; [done| | |by left; rewrite step_finished; unfold finished;
      rewrite Hn..].
    + rewrite (step_chat_node w r Hn). cbn zeta.
      destruct (value (llm_with_tools w (chat_prompt w (state r)))); [|by left].
      unfold finished. cbn [proceed node commit log_llm_call supersteps].
      destruct (Pos.to_nat (recursion_limit w) <? S (supersteps r))%nat eqn:Hl;
        [by left|].
      apply Nat.ltb_ge in Hl. unfold route_of.
      destruct (pending_tool_calls _); [by left|]. right. split_and!; [done|lia|lia].
    + rewrite (step_tools w r Hn).
      destruct (value (tool_node w (state r))); [|by left].
      unfold finished. cbn [proceed node commit supersteps].
      destruct (Pos.to_nat (recursion_limit w) <? S (supersteps r))%nat eqn:Hl;
        [by left|].
      apply Nat.ltb_ge in Hl. right. split_and!; [done|lia|lia].
Qed.

(** The tool node on calls that all deliver a payload. *)
Lemma tool_results_ok (calls : list ToolCall) :
  Forall (λ c, ∃ payload, value (run_tool w c) = Ok payload) calls →
  ∃ added,
    value (gather (tool_result w <$> calls)) = Ok added
    ∧ Forall2 (λ c m, ∃ payload, value (run_tool w c) = Ok payload
                                 ∧ m = ToolMessage payload (name c) (id c))
              calls added.
Proof.
  induction 1 as [|c calls [payload Hc] _ (added & Hg & Ha)].
  - exists []. by split; [|constructor].
  - exists (ToolMessage payload (name c) (id c) :: added). split.
    + cbn [fmap list_fmap gather]. rewrite Hg. unfold tool_result at 1. cbn [value].
      by rewrite Hc.
    + constructor; [by exists payload|done].
Qed.

(** The tool node on calls of which one lets an exception through. *)
Lemma tool_results_raise (calls : list ToolCall) :
  Exists (λ c, ∃ e, value (run_tool w c) = Raise e) calls →
  ∃ e, value (gather (tool_result w <$> calls)) = Raise e
       ∧ Exists (λ c, value (run_tool w c) = Raise e) calls.
Proof.
  intros Hex.
  destruct (gather_some_raise (tool_result w <$> calls)) as [e He].
  { apply Exists_fmap. eapply Exists_impl; [exact Hex|].
    intros c [e Hc]. exists e. unfold tool_result. cbn [value]. by rewrite Hc. }
  exists e. split; [done|].
  apply gather_raise_inv, Exists_fmap in He.
  eapply Exists_impl; [exact He|]. intros c. unfold compose, tool_result. cbn [value].
  by destruct (value (run_tool w c)); intros [= ->].
Qed.

End WithWorld.

(** C2: the chat/tools cycle is bounded by the recursion limit langgraph
    applies to [ainvoke].  Whatever the reasoning service and the tools
    do, a run has ended or failed once the input and one super-step more
    than the limit are done; it never makes more super-steps, nor more
    calls to the service, than the limit plus one; and a run that goes
    past the limit is stopped with [GraphRecursionError] instead of
    looping further. *)
Theorem tool_loop_bounded (w : World) sv tid inp :
  let limit := Pos.to_nat (recursion_limit w) in
  finished (steps w (2 + limit) (ainvoke sv tid inp)) = true
  ∧ ∀ n, let r := steps w n (ainvoke sv tid inp) in
      (supersteps r ≤ S limit)%nat
      ∧ (length (llm_calls r) ≤ S limit)%nat
      ∧ ((limit < supersteps r)%nat →
         node r = RAISED (GraphRecursionError (recursion_message w))).
Proof.
  intros limit. split.
  - destruct (run_progress w sv tid inp (S limit)) as [Hf|(_ & _ & Hk)]; [done|].
    subst limit. lia.
  - intros n r. subst r limit.
    destruct (run_bounded w sv tid inp n) as [[Hs Hc]|[(_ & Hs & Hc)|(Hn & Hs & Hc)]].
    + split_and!; [lia..|]. intros ?. lia.
    + split_and!; [lia..|]. intros ?. lia.
    + by split_and!; [lia..|].
Qed.

Lemma tool_loop_bounded_witness :
  let r := steps looping_world 27 (ainvoke ∅ "t1" [HumanMessage "hi"]) in
  finished r = true
  ∧ node r = RAISED (GraphRecursionError (recursion_message looping_world)).
Proof.
  destruct (tool_loop_bounded looping_world ∅ "t1" [HumanMessage "hi"]) as [Hf Hb].
  split; [exact Hf|].
  apply (Hb 27%nat). vm_compute. lia.
Defined.

(** C6, as stated, fails at [tools]: when a tool lets an exception
    through, the step does not go back to [chat_node]; the run stops
    there with the exception and nothing is stored.  Nor does the step
    that takes a run past the recursion limit: it ends the run with
    [GraphRecursionError], though every tool delivered. *)
Lemma tools_step_aborts_when_tool_raises :
  let r := steps broken_tool_world 2 (ainvoke ∅ "t1" [HumanMessage "list my files"]) in
  let r' := steps looping_world 26 (ainvoke ∅ "t1" [HumanMessage "hi"]) in
  node r = tools
  ∧ node (step broken_tool_world r) = RAISED (ToolException "connection closed")
  ∧ saver (step broken_tool_world r) = saver r
  ∧ node r' = tools
  ∧ node (step looping_world r')
    = RAISED (GraphRecursionError (recursion_message looping_world))
  ∧ ¬ (∀ (w : World) sv tid inp (n : nat),
         node (steps w n (ainvoke sv tid inp)) = tools →
         node (step w (steps w n (ainvoke sv tid inp))) = chat_node_).
Proof.
  split_and!; [vm_compute; reflexivity..|].
  intros Hall.
  by specialize (Hall broken_tool_world ∅ "t1" [HumanMessage "list my files"] 2%nat
                   eq_refl).
Qed.

(** C6, amended: at [chat_node] the reasoning service is called with the
    system prompt followed by the thread's persisted messages and its
    reply is appended as one message; within the recursion limit the run
    then goes to [tools] exactly when the reply carries a tool call and
    to [END] otherwise.  From [tools] the run goes back to [chat_node]
    when every pending call delivers a payload, within the limit; when a
    call lets an exception through, the run stops with the exception of
    one of the calls and nothing is stored.  Past the limit either step
    ends in [GraphRecursionError]. *)
Theorem chat_step_then_route (w : World) saver0 tid input (n : nat) :
  let r := steps w n (ainvoke saver0 tid input) in
  let persisted := thread_messages (saver r) tid in
  let calls := from_option pending_tool_calls [] (last persisted) in
  let within := (S (supersteps r) ≤ Pos.to_nat (recursion_limit w))%nat in
  (node r = chat_node_ →
     llm_calls (step w r) = (llm_calls r ++ [SYSTEM_PROMPT w :: persisted])%list
     ∧ ∀ reply, value (llm_with_tools w (SYSTEM_PROMPT w :: persisted)) = Ok reply →
         thread_messages (saver (step w r)) tid = (persisted ++ [to_message reply])%list
         ∧ (within →
            (node (step w r) = tools ↔ reply_tool_calls reply ≠ [])
            ∧ (node (step w r) = END ↔ reply_tool_calls reply = []))
         ∧ (¬ within →
            node (step w r) = RAISED (GraphRecursionError (recursion_message w))))
  ∧ (node r = tools →
       (Forall (λ c, ∃ payload, value (run_tool w c) = Ok payload) calls →
        (within → node (step w r) = chat_node_)
        ∧ (¬ within →
           node (step w r) = RAISED (GraphRecursionError (recursion_message w))))
       ∧ (Exists (λ c, ∃ e, value (run_tool w c) = Raise e) calls →
          ∃ e, node (step w r) = RAISED e
               ∧ Exists (λ c, value (run_tool w c) = Raise e) calls
               ∧ saver (step w r) = saver r)).
Proof.
  intros r persisted calls within.
  assert (Htid : thread_id r = tid) by apply steps_thread_id.
  assert (Hp : node r ≠ START → persisted = messages (state r)).
  { intros Hns.
    destruct (steps_synced w n _ (ainvoke_synced saver0 tid input)) as [Hs|Hs];
      fold r in Hs; [congruence|].
    unfold persisted, thread_messages, aget_state. by rewrite <- Htid, Hs. }
  split.
  - intros Hn. specialize (Hp ltac:(congruence)).
    rewrite (step_chat_node w r Hn). cbn zeta.
    change (chat_prompt w (state r)) with (SYSTEM_PROMPT w :: messages (state r)).
    rewrite <- Hp. split.
    + destruct (value (llm_with_tools w (SYSTEM_PROMPT w :: persisted)));
        cbn [llm_calls proceed commit fail log_llm_call]; unfold chat_prompt;
        by rewrite <- Hp.
    + intros reply ->. split_and!.
      * cbn [proceed commit saver log_llm_call thread_id state]. rewrite Htid.
        unfold thread_messages, aget_state. rewrite lookup_insert_eq. cbn.
        by rewrite Hp.
      * intros Hw. rewrite proceed_node_within by done.
        unfold route_of, to_message; cbn. by destruct (reply_tool_calls reply).
      * intros Hw. apply proceed_node_past. cbn [commit log_llm_call supersteps].
        subst within. lia.
  - intros Hn. specialize (Hp ltac:(congruence)).
    rewrite (step_tools w r Hn). unfold tool_node. rewrite <- Hp. fold calls. split.
    + intros Hok. destruct (tool_results_ok w calls Hok) as (added & -> & _). split.
      * intros Hw. by apply proceed_node_within.
      * intros Hw. apply proceed_node_past. cbn [commit supersteps].
        subst within. lia.
    + intros Hex. destruct (tool_results_raise w calls Hex) as (e & -> & He).
      by exists e.
Qed.

Lemma chat_step_then_route_witness :
  let r := steps tool_world 1 (ainvoke ∅ "t1" [HumanMessage "list my files"]) in
  (llm_calls (step tool_world r)
     = [[SYSTEM_PROMPT tool_world; HumanMessage "list my files"]]
   ∧ node (step tool_world r) = tools)
  ∧ node (step tool_world (step tool_world r)) = chat_node_.
Proof.
  pose proof (chat_step_then_route tool_world ∅ "t1" [HumanMessage "list my files"] 1)
    as [Hchat _].
  pose proof (chat_step_then_route tool_world ∅ "t1" [HumanMessage "list my files"] 2)
    as [_ Htools].
  cbv zeta in *. split.
  - destruct (Hchat eq_refl) as [Hlog Hreply]. split; [exact Hlog|].
    destruct (Hreply {| reply_content := ""; reply_tool_calls := [list_directory] |}
                eq_refl) as (_ & Hroute & _).
    apply Hroute; [vm_compute; lia|discriminate].
  - destruct (Htools eq_refl) as [Hok _]. apply Hok.
    + repeat constructor. by eexists.
    + vm_compute. lia.
Defined.

End graph_claims.

(** ** The routes *)

Module route_claims.
Import mcp_chatbot_backend app_flask invariants graph_facts spec.

Lemma fetch_history_persisted (a : App) (tid : string) :
  fetch_history a tid = history_entry <$> thread_messages (checkpointer a) tid.
Proof.
  unfold fetch_history, thread_messages.
  destruct (aget_state (checkpointer a) tid) as [state|]; [|done].
  unfold values. by rewrite lookup_singleton_eq.
Qed.

Lemma get_thread_id_keeps_store (w : World) (a : App) :
  checkpointer (get_thread_id w a).2 = checkpointer a
  ∧ invocations (get_thread_id w a).2 = invocations a.
Proof. unfold get_thread_id. by destruct (session a). Qed.

Lemma chosen_thread_id_keeps_store (w : World) (data : ChatData) (a : App) :
  checkpointer (chosen_thread_id w data a).2 = checkpointer a
  ∧ invocations (chosen_thread_id w data a).2 = invocations a.
Proof.
  unfold chosen_thread_id.
  destruct (thread_id_field data) as [[|c s]|]; try apply get_thread_id_keeps_store; done.
Qed.

(** One call of [chat], whatever it answers and however far its run got,
    leaves a store that extends the one it found. *)
Lemma chat_extends (w : World) (n : nat) request_json (a : App) :
  extends (checkpointer a) (checkpointer (chat w n request_json a).2).
Proof.
  unfold chat.
  destruct (default (JString "") (message (default _ request_json))) as [|s|ty];
    [apply extends_refl| |apply extends_refl].
  set (data := default _ request_json).
  pose proof (chosen_thread_id_keeps_store w data a) as [Hc _].
  destruct (chosen_thread_id w data a) as [tid a1]; cbn [snd] in Hc.
  destruct (decide (strip s = "")); cbn [snd]; [by rewrite Hc; apply extends_refl|].
  assert (He : extends (checkpointer a) (saver (chat_run w n tid (strip s) a1))).
  { rewrite <- Hc. apply (steps_extends w n (ainvoke (checkpointer a1) tid _)).
    apply ainvoke_synced. }
  destruct (finished (chat_run w n tid (strip s) a1)); [|done].
  destruct (run_async (process_message (chat_run w n tid (strip s) a1))) as [res|e]; [|done].
  destruct (res !! "messages") as [msgs|]; [|done]. by destruct (last msgs).
Qed.

Lemma serve_extends (w : World) calls (a : App) :
  extends (checkpointer a) (checkpointer (serve w calls a)).
Proof.
  revert a. induction calls as [|[n req] calls IH]; intros a; [apply extends_refl|].
  cbn [serve foldl fst snd]. eapply extends_trans; [apply (chat_extends w n req)|].
  apply IH.
Qed.

(** C1, as stated, fails: after a turn in which the reasoning service
    used a tool, the thread holds a [ToolMessage], and the history lists
    it, under the role ["assistant"], where the specification's filter
    drops it. *)
Lemma history_keeps_tool_messages :
  thread_messages (checkpointer app_after_tool_turn) "thread-0"
    = [HumanMessage "list my files";
       AIMessage "" [list_directory];
       ToolMessage "a.txt b.txt" "list_directory" "call_1";
       AIMessage "You have two files." []]
  ∧ fetch_history app_after_tool_turn "thread-0"
    = [{| role := "user"; entry_content := "list my files" |};
       {| role := "assistant"; entry_content := "" |};
       {| role := "assistant"; entry_content := "a.txt b.txt" |};
       {| role := "assistant"; entry_content := "You have two files." |}]
  ∧ fetch_history app_after_tool_turn "thread-0"
    ≠ history_per_spec (thread_messages (checkpointer app_after_tool_turn) "thread-0").
Proof.
  assert (Hm : thread_messages (checkpointer app_after_tool_turn) "thread-0"
    = [HumanMessage "list my files";
       AIMessage "" [list_directory];
       ToolMessage "a.txt b.txt" "list_directory" "call_1";
       AIMessage "You have two files." []]) by (vm_compute; reflexivity).
  split_and!; [exact Hm| |].
  - rewrite fetch_history_persisted, Hm. reflexivity.
  - rewrite fetch_history_persisted, Hm. vm_compute. discriminate.
Qed.

(** C1, amended: the history has one entry per persisted message, in
    conversation order and of whatever class; the entry carries the
    message's content and the role ["user"] for a [HumanMessage],
    ["assistant"] for every other message.  The route answers it with
    status 200. *)
Theorem get_history_lists_every_message (thread_id : string) (a : App) :
  let persisted := thread_messages (checkpointer a) thread_id in
  get_history thread_id a = (HistoryReply (fetch_history a thread_id) thread_id, 200)
  ∧ length (fetch_history a thread_id) = length persisted
  ∧ ∀ i : nat,
      fetch_history a thread_id !! i =
        (λ m, {| role := match m with HumanMessage _ => "user" | _ => "assistant" end;
                 entry_content := content m |}) <$> (persisted !! i).
Proof.
  intros persisted. split_and!.
  - reflexivity.
  - by rewrite fetch_history_persisted, length_fmap.
  - intros i. rewrite fetch_history_persisted, list_lookup_fmap.
    fold persisted. destruct (persisted !! i) as [m|]; [|done]. by destruct m.
Qed.

(** C3: [clear_thread] answers 501 with ["success": False] and a message
    saying clearing is not supported, and leaves the application, hence
    every thread's history, as it was. *)
Theorem clear_thread_unsupported (thread_id : string) (a : App) :
  (clear_thread thread_id a).1
    = (MessageReply "Thread clearing not supported. Create a new thread instead.", 501)
  ∧ success (clear_thread thread_id a).1.1 = false
  ∧ (clear_thread thread_id a).2 = a
  ∧ ∀ tid, get_history tid (clear_thread thread_id a).2 = get_history tid a.
Proof. done. Qed.

(** C4: across any succession of [chat] calls, with any requests and any
    progress of their runs, every thread's persisted messages before are
    an initial segment of its persisted messages after, and its history
    is at least as long. *)
Theorem chat_history_append_only (w : World) (calls : list (nat * option ChatData))
    (a : App) (tid : string) :
  thread_messages (checkpointer a) tid
    `prefix_of` thread_messages (checkpointer (serve w calls a)) tid
  ∧ (length (fetch_history a tid) ≤ length (fetch_history (serve w calls a) tid))%nat.
Proof.
  pose proof (serve_extends w calls a tid) as Hp. split; [exact Hp|].
  rewrite !fetch_history_persisted, !length_fmap. by apply prefix_length.
Qed.

(** C5: a request whose message is empty or missing is answered 400
    ["No message provided"]; the checkpointer is untouched, no
    [bot.ainvoke] is made, and every history is as before. *)
Theorem chat_rejects_blank_message (w : World) (n : nat) request_json (a : App) :
  blank_message request_json →
  ∃ a', chat w n request_json a = (Some (ErrorReply "No message provided", 400), a')
        ∧ checkpointer a' = checkpointer a
        ∧ invocations a' = invocations a
        ∧ ∀ tid, fetch_history a' tid = fetch_history a tid.
Proof.
  intros Hb. unfold chat.
  set (data := default _ request_json).
  assert (Hs : ∃ s, default (JString "") (message data) = JString s ∧ strip s = "").
  { subst data. destruct request_json as [data|]; cbn in *; [|by exists ""].
    destruct (message data) as [[|s|ty]|]; cbn; try done; [by exists s|by exists ""]. }
  destruct Hs as (s & -> & Hs).
  pose proof (chosen_thread_id_keeps_store w data a) as [Hc Hi].
  destruct (chosen_thread_id w data a) as [tid a1]; cbn [snd] in Hc, Hi.
  rewrite decide_True by done. exists a1. split_and!; [done..|].
  intros t. unfold fetch_history. by rewrite Hc.
Qed.

(** A ["message"] that is not a string (null, a number, ...) never
    reaches the engine either: [.strip()] raises and the handler answers
    500 with the application unchanged. *)
Lemma chat_rejects_non_text (w : World) (n : nat) (data : ChatData) (a : App) :
  message data = Some JNull ∨ (∃ ty, message data = Some (JOther ty)) →
  ∃ error, chat w n (Some data) a = (Some (ErrorReply error, 500), a).
Proof.
  unfold chat. cbv zeta. cbn [from_option Datatypes.id].
  intros [->|[ty ->]]; cbn [from_option Datatypes.id]; by eexists.
Qed.

Lemma chat_rejects_blank_message_witness :
  ∃ a', chat tool_world 4 (say "   ") app_after_tool_turn
          = (Some (ErrorReply "No message provided", 400), a')
        ∧ checkpointer a' = checkpointer app_after_tool_turn
        ∧ invocations a' = invocations app_after_tool_turn
        ∧ ∀ tid, fetch_history a' tid = fetch_history app_after_tool_turn tid.
Proof.
  apply (chat_rejects_blank_message tool_world 4 (say "   ") app_after_tool_turn).
  reflexivity.
Defined.

End route_claims.

(** ** The execution bridge and the [chat] route *)

Module bridge_claims.
Import mcp_chatbot_backend app_flask invariants graph_facts spec.

Lemma run_async_in_time {A} (after : nat) (outcome : Result A) :
  (after ≤ 60)%nat → run_async (Completes after outcome) = outcome.
Proof.
  intros Hle. unfold run_async, result.
  by rewrite (proj2 (Nat.leb_le after 60) Hle).
Qed.

Lemma run_async_late {A} (after : nat) (outcome : Result A) :
  (60 < after)%nat → run_async (Completes after outcome) = Raise TimeoutError.
Proof.
  intros Hlt. unfold run_async, result.
  by rewrite (proj2 (Nat.leb_gt after 60) Hlt).
Qed.

(** What [process_message] can deliver: the channel values of some state. *)
Lemma process_message_values (r : Run) res :
  run_async (process_message r) = Ok res → ∃ st, res = values st.
Proof.
  unfold process_message, run_async, result.
  destruct (node r); try done; destruct (clock r <=? 60)%nat; try done.
  intros [= <-]. by eexists.
Qed.

(** [chat] on a request that carries a non-blank message text. *)
Lemma chat_with_text (w : World) (n : nat) (data : ChatData) (s : string) (a : App) :
  message data = Some (JString s) → strip s ≠ "" →
  let tid := (chosen_thread_id w data a).1 in
  let a1 := (chosen_thread_id w data a).2 in
  let r := chat_run w n tid (strip s) a1 in
  let a2 := {| checkpointer := saver r; session := session a1;
               uuid_drawn := uuid_drawn a1;
               invocations := invocations a1 ++ [(tid, strip s)] |} in
  chat w n (Some data) a =
    if finished r then
      match run_async (process_message r) with
      | Raise e => (Some (server_error e), a2)
      | Ok res =>
          match res !! "messages" with
          | None => (Some (server_error (KeyError "messages")), a2)
          | Some msgs =>
              match last msgs with
              | None => (Some (server_error IndexError), a2)
              | Some last_msg =>
                  (Some (ChatReply (content last_msg) tid
                           (res !! "discovered_username"), 200), a2)
              end
          end
      end
    else (None, a2).
Proof.
  intros Hm Hs. unfold chat. cbv zeta. cbn [from_option Datatypes.id]. rewrite Hm.
  cbn [from_option Datatypes.id].
  destruct (chosen_thread_id w data a) as [tid a1]. cbn [fst snd].
  by rewrite decide_False.
Qed.

(** Once [chat] has an answer, giving its run more super-steps changes
    neither the answer nor the state it leaves. *)
Lemma chat_more_steps (w : World) (n m : nat) request_json (a : App) (resp : Response) :
  (n ≤ m)%nat → (chat w n request_json a).1 = Some resp →
  chat w m request_json a = chat w n request_json a.
Proof.
  intros Hle. unfold chat.
  destruct (default (JString "") (message (default _ request_json))) as [|s|ty];
    [done| |done].
  destruct (chosen_thread_id w _ a) as [tid a1].
  destruct (decide (strip s = "")); [done|].
  destruct (finished (chat_run w n tid (strip s) a1)) eqn:Hf; [|done].
  intros _. unfold chat_run in *.
  by rewrite (steps_finished_le w n m _ Hle Hf), Hf.
Qed.

(** C7: [run_async] waits on every coroutine with the one timeout of 60
    seconds.  A coroutine that completes within 60 seconds delivers its
    outcome (so also one that takes more than 30); one that completes
    later, or never, makes the wait raise [TimeoutError]; and [chat]
    answers a run that took longer with the failure reply of status 500. *)
Theorem run_async_timeout_60 :
  (∀ A (after : nat) (outcome : Result A),
      ((after ≤ 60)%nat → run_async (Completes after outcome) = outcome)
      ∧ ((60 < after)%nat → run_async (Completes after outcome) = Raise TimeoutError))
  ∧ (∀ A, run_async (@Pending A) = Raise TimeoutError)
  ∧ (∀ (w : World) (n : nat) (data : ChatData) (s : string) (a : App),
      message data = Some (JString s) → strip s ≠ "" →
      let r := chat_run w n (chosen_thread_id w data a).1 (strip s)
                        (chosen_thread_id w data a).2 in
      finished r = true → (60 < clock r)%nat →
      (chat w n (Some data) a).1 = Some (ErrorReply (str TimeoutError), 500)).
Proof.
  split_and!.
  - intros A after outcome. split; [apply run_async_in_time|apply run_async_late].
  - done.
  - intros w n data s a Hm Hs r Hf Hlate.
    rewrite (chat_with_text w n data s a Hm Hs). cbv zeta. fold r. rewrite Hf.
    assert (run_async (process_message r) = Raise TimeoutError) as ->; [|done].
    unfold process_message. unfold finished in Hf.
    destruct (node r); try done; by apply run_async_late.
Qed.

Lemma run_async_timeout_60_witness :
  run_async (Completes 45 (Ok "done")) = Ok "done"
  ∧ run_async (Completes 61 (Ok "done")) = Raise TimeoutError
  ∧ (chat (plain_world 61) 2 (say "hi") fresh_app).1 = Some (ErrorReply "", 500).
Proof.
  destruct run_async_timeout_60 as (Hbridge & _ & Hchat).
  split_and!.
  - apply (proj1 (Hbridge string 45 (Ok "done"))). lia.
  - apply (proj2 (Hbridge string 61 (Ok "done"))). lia.
  - apply (Hchat (plain_world 61) 2
             {| message := Some (JString "hi"); thread_id_field := None |} "hi" fresh_app).
    + reflexivity.
    + vm_compute. discriminate.
    + vm_compute. reflexivity.
    + vm_compute. reflexivity.
Defined.

(** C8, as stated, fails: the second request of a session that sends no
    thread id is answered with the thread id the session already holds,
    a thread that has messages, and [uuid4] is not drawn from. *)
Lemma chat_reuses_session_thread :
  session app_after_tool_turn = Some "thread-0"
  ∧ "thread-0" ∈ dom (checkpointer app_after_tool_turn)
  ∧ (chat tool_world 4 (say "and again") app_after_tool_turn).1
      = Some (ChatReply "You have two files." "thread-0" None, 200)
  ∧ uuid_drawn (chat tool_world 4 (say "and again") app_after_tool_turn).2
      = uuid_drawn app_after_tool_turn
  ∧ ¬ mints_new_thread tool_world 4
        {| message := Some (JString "and again"); thread_id_field := None |}
        app_after_tool_turn.
Proof.
  assert (Hr : (chat tool_world 4 (say "and again") app_after_tool_turn).1
      = Some (ChatReply "You have two files." "thread-0" None, 200))
    by (vm_compute; reflexivity).
  split_and!.
  - vm_compute; reflexivity.
  - apply elem_of_dom. vm_compute. by eexists.
  - exact Hr.
  - vm_compute; reflexivity.
  - intros (response & du & a' & Hc & _). unfold say in Hr.
    rewrite Hc in Hr. cbn [fst] in Hr. vm_compute in Hr. discriminate.
Qed.

(** C8, amended: a request with a message and no thread id runs on the
    session's thread: the id the session holds, or, when it holds none, an
    id drawn from [uuid4] and stored in the session.  That id is the one
    the engine is invoked with and the one a successful reply carries. *)
Theorem chat_without_thread_id_uses_session (w : World) (n : nat) (data : ChatData)
    (s : string) (a : App) :
  message data = Some (JString s) → strip s ≠ "" → thread_id_field data = None →
  let tid := default (uuid4 w (uuid_drawn a)) (session a) in
  let out := chat w n (Some data) a in
  session out.2 = Some tid
  ∧ uuid_drawn out.2 = match session a with
                       | Some _ => uuid_drawn a
                       | None => S (uuid_drawn a)
                       end
  ∧ invocations out.2 = (invocations a ++ [(tid, strip s)])%list
  ∧ ∀ response t du status, out.1 = Some (ChatReply response t du, status) → t = tid.
Proof.
  intros Hm Hs Ht tid out. subst out.
  rewrite (chat_with_text w n data s a Hm Hs). cbv zeta.
  assert (Hc : chosen_thread_id w data a
    = (tid, {| checkpointer := checkpointer a; session := Some tid;
               uuid_drawn := match session a with
                             | Some _ => uuid_drawn a
                             | None => S (uuid_drawn a)
                             end;
               invocations := invocations a |})).
  { unfold chosen_thread_id, get_thread_id, tid. rewrite Ht.
    destruct a as [c [t|] u i]; reflexivity. }
  rewrite Hc. cbn [fst snd].
  set (r := chat_run w n tid (strip s) _).
  destruct (finished r); [|split_and!; cbn; done].
  destruct (run_async (process_message r)) as [res|e]; [|split_and!; cbn; done].
  destruct (res !! "messages") as [msgs|]; [|split_and!; cbn; done].
  destruct (last msgs); split_and!; cbn; try done.
  by intros ? ? ? ? [= _ -> _ _].
Qed.

Lemma chat_without_thread_id_uses_session_witness :
  let out := chat tool_world 4 (say "list my files") fresh_app in
  session out.2 = Some "thread-0"
  ∧ uuid_drawn out.2 = 1%nat
  ∧ invocations out.2 = [("thread-0", "list my files")]
  ∧ ∀ response t du status,
      out.1 = Some (ChatReply response t du, status) → t = "thread-0".
Proof.
  apply (chat_without_thread_id_uses_session tool_world 4
           {| message := Some (JString "list my files"); thread_id_field := None |}
           "list my files" fresh_app).
  - reflexivity.
  - vm_compute. discriminate.
  - reflexivity.
Defined.

(** C10: the state of the graph has the single channel [messages], so
    every successful reply of [chat] carries a null
    ["discovered_username"]. *)
Theorem chat_discovered_username_null (w : World) (n : nat) request_json (a : App)
    (reply : Reply) (status : nat) :
  (chat w n request_json a).1 = Some (reply, status) → success reply = true →
  ∃ response thread_id, reply = ChatReply response thread_id None.
Proof.
  unfold chat.
  destruct (default (JString "") (message (default _ request_json))) as [|s|ty];
    cbn [fst]; [by intros [= <- _]| |by intros [= <- _]].
  destruct (chosen_thread_id w _ a) as [tid a1].
  destruct (decide (strip s = "")); cbn [fst]; [by intros [= <- _]|].
  destruct (finished (chat_run w n tid (strip s) a1)); [|done].
  destruct (run_async (process_message (chat_run w n tid (strip s) a1)))
    as [res|e] eqn:Hres; cbn [fst]; [|by intros [= <- _]].
  destruct (process_message_values _ _ Hres) as [st ->].
  destruct (values st !! "messages") as [msgs|]; cbn [fst]; [|by intros [= <- _]].
  destruct (last msgs); cbn [fst]; [|by intros [= <- _]].
  intros [= <- _] _. eexists _, _. f_equal.
Qed.

Lemma chat_discovered_username_null_witness :
  ∃ response thread_id,
    ChatReply "You have two files." "thread-0" None = ChatReply response thread_id None.
Proof.
  apply (chat_discovered_username_null tool_world 4 (say "list my files") fresh_app
           (ChatReply "You have two files." "thread-0" None) 200).
  - vm_compute. reflexivity.
  - reflexivity.
Defined.

End bridge_claims.

(** ** What a run appends, and when it ends *)

Module run_facts.
Import mcp_chatbot_backend invariants shape graph_facts.

Section WithWorld.
Context (w : World).

Lemma route_of_not_start (m : BaseMessage) : route_of m ≠ START.
Proof. unfold route_of. by destruct (pending_tool_calls m). Qed.

Lemma proceed_not_start (r : Run) (next : Node) :
  next ≠ START → node (proceed w r next) ≠ START.
Proof.
  intros Hn. cbn [proceed node].
  by destruct (Pos.to_nat (recursion_limit w) <? S (supersteps r))%nat.
Qed.

Lemma step_not_start (r : Run) : node (step w r) ≠ START.
Proof.
  destruct (node r) eqn:Hn.
  - by rewrite (step_start w r Hn).
  - rewrite (step_chat_node w r Hn). cbn zeta.
    destruct (value (llm_with_tools w (chat_prompt w (state r)))); [|done].
    apply proceed_not_start, route_of_not_start.
  - rewrite (step_tools w r Hn).
    destruct (value (tool_node w (state r))); [|done].
    by apply proceed_not_start.
  - rewrite step_finished; [congruence|]. unfold finished. by rewrite Hn.
  - rewrite step_finished; [congruence|]. unfold finished. by rewrite Hn.
Qed.

Lemma steps_not_start (n : nat) (r : Run) : node (steps w (S n) r) ≠ START.
Proof.
  revert r. induction n as [|n IH]; intros r; [apply step_not_start|].
  change (steps w (S (S n)) r) with (steps w (S n) (step w r)). apply IH.
Qed.

Lemma step_grown base inp (r : Run) :
  node r ≠ START → grown base inp r → grown base inp (step w r).
Proof.
  intros Hns (Hs & rest & Hm & Hrest). unfold grown. rewrite step_thread_id.
  destruct (step_store w r)
    as [[-> ->]|(old & update & Hst & Hsv & [(Hn & _)|(_ & -> & Hu)])];
    [by eauto|done|].
  split.
  - rewrite Hsv. apply lookup_insert_eq.
  - exists (rest ++ update)%list. rewrite Hst. cbn [messages]. unfold add_messages.
    split; [by rewrite Hm, <- !(assoc_L (++))|by apply Forall_app].
Qed.

Lemma start_grown sv tid inp :
  grown (thread_messages sv tid) inp (step w (ainvoke sv tid inp)).
Proof.
  rewrite step_start by done. split.
  - cbn [commit saver thread_id state]. apply lookup_insert_eq.
  - exists []. cbn [commit load state messages ainvoke saver thread_id input].
    unfold add_messages. by rewrite (right_id_L [] (++)).
Qed.

(** After its first super-step a run works on the thread's checkpoint:
    what the thread held, the input, then messages of the graph's nodes. *)
Lemma run_grown sv tid inp (n : nat) :
  grown (thread_messages sv tid) inp (steps w (S n) (ainvoke sv tid inp)).
Proof.
  induction n as [|n IH]; [apply start_grown|].
  replace (S (S n)) with (S n + 1)%nat by lia. rewrite steps_add.
  cbn [steps]. apply step_grown; [apply steps_not_start|exact IH].
Qed.

Lemma run_grown_persisted sv tid inp (n : nat) :
  ∃ rest,
    thread_messages (saver (steps w (S n) (ainvoke sv tid inp))) tid
      = (thread_messages sv tid ++ inp ++ rest)%list
    ∧ Forall (λ m, from_graph m = true) rest.
Proof.
  destruct (run_grown sv tid inp n) as (Hs & rest & Hm & Hrest).
  exists rest. split; [|done].
  rewrite steps_thread_id in Hs. cbn [ainvoke thread_id] in Hs.
  unfold thread_messages at 1, aget_state. by rewrite Hs.
Qed.

Lemma step_answered (r : Run) : answered r → answered (step w r).
Proof.
  intros Ha. destruct (node r) eqn:Hn.
  - rewrite (step_start w r Hn). by intros ?.
  - rewrite (step_chat_node w r Hn). cbn zeta.
    destruct (value (llm_with_tools w (chat_prompt w (state r)))) as [reply|e];
      [|by intros ?].
    unfold answered. cbn [proceed commit node state messages log_llm_call].
    destruct (Pos.to_nat (recursion_limit w) <? _)%nat; [by intros ?|].
    unfold add_messages, route_of, to_message. cbn [pending_tool_calls].
    destruct (reply_tool_calls reply); [|by intros ?].
    intros _. rewrite last_snoc. by eexists.
  - rewrite (step_tools w r Hn).
    destruct (value (tool_node w (state r))); [|by intros ?].
    unfold answered. cbn [proceed commit node].
    by destruct (Pos.to_nat (recursion_limit w) <? _)%nat.
  - rewrite step_finished; [done|]. unfold finished. by rewrite Hn.
  - rewrite step_finished; [done|]. unfold finished. by rewrite Hn.
Qed.

Lemma run_answered sv tid inp (n : nat) :
  answered (steps w n (ainvoke sv tid inp)).
Proof.
  induction n as [|n IH]; [by intros ?|].
  replace (S n) with (n + 1)%nat by lia. rewrite steps_add. by apply step_answered.
Qed.

Lemma step_dom (r : Run) :
  {[thread_id r]} ∪ dom (saver (step w r)) = {[thread_id r]} ∪ dom (saver r).
Proof.
  destruct (step_store w r) as [[-> _]|(old & update & _ & -> & _)]; [done|].
  rewrite dom_insert_L. by rewrite (assoc_L (∪)), (idemp_L (∪)).
Qed.

Lemma steps_dom (n : nat) (r : Run) :
  {[thread_id r]} ∪ dom (saver (steps w n r)) = {[thread_id r]} ∪ dom (saver r).
Proof.
  revert r. induction n as [|n IH]; intros r; [done|].
  cbn [steps]. rewrite <- (step_thread_id w r) at 1. rewrite IH.
  rewrite step_thread_id. apply step_dom.
Qed.

(** A run that made its first super-step has a checkpoint for its thread
    and for no thread that had none. *)
Lemma run_dom sv tid inp (n : nat) :
  dom (saver (steps w (S n) (ainvoke sv tid inp))) = {[tid]} ∪ dom sv.
Proof.
  pose proof (steps_dom (S n) (ainvoke sv tid inp)) as Hd.
  cbn [ainvoke thread_id saver] in Hd. rewrite <- Hd.
  destruct (run_grown sv tid inp n) as (Hs & _).
  rewrite steps_thread_id in Hs. cbn [ainvoke thread_id] in Hs.
  symmetry. apply subseteq_union_1_L, singleton_subseteq_l, elem_of_dom.
  by eexists.
Qed.

(** The first super-step of a node is within the recursion limit. *)
Lemma first_proceed (r : Run) (next : Node) :
  supersteps r = 0%nat → node (proceed w r next) = next.
Proof.
  intros Hs. cbn [proceed node]. rewrite Hs.
  pose proof (Pos2Nat.is_pos (recursion_limit w)) as Hp.
  assert ((Pos.to_nat (recursion_limit w) <? 1)%nat = false) as ->; [|done].
  apply Nat.ltb_ge. lia.
Qed.

(** With a service that never asks for a tool, two super-steps end or
    fail every run. *)
Lemma never_calling_finished sv tid inp (n : nat) :
  never_calling w → finished (steps w (2 + n) (ainvoke sv tid inp)) = true.
Proof.
  intros Hw.
  assert (Hf : finished (steps w 2 (ainvoke sv tid inp)) = true).
  { cbn [steps]. rewrite (step_start w (ainvoke _ _ _)) by done.
    rewrite step_chat_node by done. cbn zeta.
    destruct (value (llm_with_tools w _)) as [reply|e] eqn:Hr; [|done].
    unfold finished. rewrite first_proceed by done.
    unfold route_of, to_message. cbn [pending_tool_calls]. by rewrite (Hw _ _ Hr). }
  rewrite (steps_finished_le w 2 (2 + n)); [done|lia|done].
Qed.

End WithWorld.

End run_facts.

(** ** Further properties of the graph *)

Module run_extras.
Import mcp_chatbot_backend invariants shape graph_facts run_facts spec console.

(** X1: once a run has made its first super-step, its thread's
    checkpoint holds what the thread held before, then the run's input,
    then only replies of the reasoning service and tool results: the
    system prompt is never stored, and nothing stored before is changed. *)
Theorem run_persists_input_then_graph_messages (w : World) sv tid inp (n : nat) :
  (1 ≤ n)%nat →
  ∃ rest,
    thread_messages (saver (steps w n (ainvoke sv tid inp))) tid
      = (thread_messages sv tid ++ inp ++ rest)%list
    ∧ Forall (λ m, from_graph m = true) rest.
Proof.
  intros Hn. destruct n as [|n]; [lia|]. apply run_grown_persisted.
Qed.

Lemma run_persists_input_then_graph_messages_witness :
  ∃ rest,
    thread_messages
      (saver (steps tool_world 4 (ainvoke ∅ "t1" [HumanMessage "list my files"]))) "t1"
      = (thread_messages ∅ "t1" ++ [HumanMessage "list my files"] ++ rest)%list
    ∧ Forall (λ m, from_graph m = true) rest.
Proof.
  apply (run_persists_input_then_graph_messages tool_world ∅ "t1"
           [HumanMessage "list my files"] 4).
  lia.
Defined.

(** X2: a run that reaches [END] has stored a final answer: the last
    message of its thread's checkpoint is an [AIMessage] without tool
    call. *)
Theorem run_ends_on_final_answer (w : World) sv tid inp (n : nat) :
  node (steps w n (ainvoke sv tid inp)) = END →
  ∃ text,
    last (thread_messages (saver (steps w n (ainvoke sv tid inp))) tid)
      = Some (AIMessage text []).
Proof.
  intros Hn.
  destruct (run_answered w sv tid inp n Hn) as [text Hl]. exists text.
  destruct (steps_synced w n _ (ainvoke_synced sv tid inp)) as [Hs|Hs]; [congruence|].
  rewrite steps_thread_id in Hs. cbn [ainvoke thread_id] in Hs.
  unfold thread_messages, aget_state. by rewrite Hs.
Qed.

Lemma run_ends_on_final_answer_witness :
  ∃ text,
    last (thread_messages
            (saver (steps tool_world 4 (ainvoke ∅ "t1" [HumanMessage "list my files"])))
            "t1")
      = Some (AIMessage text []).
Proof.
  apply (run_ends_on_final_answer tool_world ∅ "t1" [HumanMessage "list my files"] 4).
  reflexivity.
Defined.

(** X3: with a reasoning service that never asks for a tool, every run
    has ended or failed after two super-steps, with one call made to the
    service. *)
Theorem run_without_tool_calls_finishes (w : World) sv tid inp (n : nat) :
  never_calling w → (2 ≤ n)%nat →
  finished (steps w n (ainvoke sv tid inp)) = true
  ∧ length (llm_calls (steps w n (ainvoke sv tid inp))) = 1%nat.
Proof.
  intros Hw Hn. replace n with (2 + (n - 2))%nat by lia.
  pose proof (never_calling_finished w sv tid inp 0 Hw) as Hf.
  rewrite (steps_finished_le w (2 + 0) (2 + (n - 2))) by (lia || done).
  split; [done|]. cbn [Nat.add steps]. rewrite (step_start w (ainvoke _ _ _)) by done.
  rewrite step_chat_node by done. cbn zeta.
  by destruct (value (llm_with_tools w _)).
Qed.

Lemma run_without_tool_calls_finishes_witness :
  finished (steps (plain_world 3) 7 (ainvoke ∅ "t1" [HumanMessage "hi"])) = true
  ∧ length (llm_calls (steps (plain_world 3) 7 (ainvoke ∅ "t1" [HumanMessage "hi"])))
    = 1%nat.
Proof.
  apply (run_without_tool_calls_finishes (plain_world 3) ∅ "t1" [HumanMessage "hi"] 7).
  - intros prompt reply [= <-]. reflexivity.
  - lia.
Defined.

(** X4: when the reasoning service raises at [chat_node], the run stops
    there with that exception: no checkpoint is written for the failed
    step and further super-steps change nothing. *)
Theorem run_stops_when_service_raises (w : World) (r : Run) (e : Exception) (n : nat) :
  node r = chat_node_ →
  value (llm_with_tools w (SYSTEM_PROMPT w :: messages (state r))) = Raise e →
  node (steps w (S n) r) = RAISED e
  ∧ saver (steps w (S n) r) = saver r
  ∧ state (steps w (S n) r) = state r
  ∧ steps w (S n) r = step w r.
Proof.
  intros Hn He. cbn [steps].
  assert (Hs : step w r = fail (log_llm_call w r) e
                 (seconds (llm_with_tools w (SYSTEM_PROMPT w :: messages (state r))))).
  { rewrite (step_chat_node w r Hn). cbn zeta.
    change (chat_prompt w (state r)) with (SYSTEM_PROMPT w :: messages (state r)).
    by rewrite He. }
  rewrite steps_finished by (by rewrite Hs).
  by rewrite Hs.
Qed.

Lemma run_stops_when_service_raises_witness :
  let r := step failing_world (ainvoke ∅ "t1" [HumanMessage "hi"]) in
  node (steps failing_world 3 r) = RAISED (ProviderError "quota exceeded")
  ∧ saver (steps failing_world 3 r) = saver r
  ∧ state (steps failing_world 3 r) = state r
  ∧ steps failing_world 3 r = step failing_world r.
Proof.
  apply (run_stops_when_service_raises failing_world
           (step failing_world (ainvoke ∅ "t1" [HumanMessage "hi"]))
           (ProviderError "quota exceeded") 2); reflexivity.
Defined.

End run_extras.

(** ** How [chat] treats a request *)

Module chat_facts.
Import mcp_chatbot_backend app_flask invariants shape graph_facts run_facts spec.
Import route_claims bridge_claims.





Lemma chat_data_of (w : World) (n : nat) request_json (a : App) :
  chat w n request_json a = chat w n (Some (data_of request_json)) a.
Proof. by destruct request_json. Qed.

(** The state [chat] leaves after a request with a non-blank text. *)
Lemma chat_text_state (w : World) (n : nat) (data : ChatData) (s : string) (a : App) :
  message data = Some (JString s) → strip s ≠ "" →
  let tid := (chosen_thread_id w data a).1 in
  let a1 := (chosen_thread_id w data a).2 in
  (chat w n (Some data) a).2
    = {| checkpointer := saver (chat_run w n tid (strip s) a1);
         session := session a1;
         uuid_drawn := uuid_drawn a1;
         invocations := invocations a1 ++ [(tid, strip s)] |}.
Proof.
  intros Hm Hs tid a1. rewrite (chat_with_text w n data s a Hm Hs). cbv zeta.
  fold tid a1. destruct (finished _); [|done].
  destruct (run_async _) as [res|e]; [|done].
  destruct (res !! "messages") as [msgs|]; [|done]. by destruct (last msgs).
Qed.

(** A request without usable text is answered before any run starts. *)
Lemma chat_without_text (w : World) (n : nat) (data : ChatData) (a : App) :
  (∀ s, message data = Some (JString s) → strip s = "") →
  (chat w n (Some data) a
     = (Some (ErrorReply "No message provided", 400), (chosen_thread_id w data a).2)
   ∧ (message data = None ∨ ∃ s, message data = Some (JString s) ∧ strip s = ""))
  ∨ (∃ e, chat w n (Some data) a = (Some (server_error e), a)).
Proof.
  intros Hb. unfold chat. cbv zeta. cbn [from_option Datatypes.id].
  destruct (message data) as [[|s|ty]|] eqn:Hm; cbn [from_option Datatypes.id].
  - right. by eexists.
  - left. destruct (chosen_thread_id w data a) as [tid a1].
    rewrite decide_True by (by apply Hb). split; [done|]. right. exists s.
    split; [done|]. by apply Hb.
  - right. by eexists.
  - left. destruct (chosen_thread_id w data a) as [tid a1].
    rewrite decide_True by done. split; [done|]. by left.
Qed.

Lemma text_or_not (data : ChatData) :
  (∃ s, message data = Some (JString s) ∧ strip s ≠ "")
  ∨ (∀ s, message data = Some (JString s) → strip s = "").
Proof.
  destruct (message data) as [[|s|ty]|]; [by right| |by right|by right].
  destruct (decide (strip s = "")) as [He|Hne].
  - right. by intros ? [= <-].
  - left. by exists s.
Qed.

Lemma chosen_thread_id_checkpointer (w : World) (data : ChatData) (a : App) :
  checkpointer (chosen_thread_id w data a).2 = checkpointer a.
Proof. apply chosen_thread_id_keeps_store. Qed.

(** What [run_async (process_message r)] delivers when it delivers. *)
Lemma process_message_ok (r : Run) res :
  run_async (process_message r) = Ok res → node r = END ∧ res = values (state r).
Proof.
  unfold process_message, run_async, result.
  destruct (node r); try done; destruct (clock r <=? 60)%nat; try done.
  by intros [= <-].
Qed.

(** The run of a request whose first reply carries no tool call. *)
Lemma plain_run (w : World) sv tid text (reply : AIReply) (n : nat) :
  let prompt := (SYSTEM_PROMPT w :: thread_messages sv tid ++ [HumanMessage text])%list in
  value (llm_with_tools w prompt) = Ok reply → reply_tool_calls reply = [] →
  let r := steps w (2 + n) (ainvoke sv tid [HumanMessage text]) in
  node r = END
  ∧ clock r = seconds (llm_with_tools w prompt)
  ∧ messages (state r)
    = (thread_messages sv tid ++ [HumanMessage text; to_message reply])%list
  ∧ saver r !! tid = Some (state r).
Proof.
  intros prompt Hr Hc r.
  assert (Hs : steps w 2 (ainvoke sv tid [HumanMessage text])
    = proceed w
        (commit (log_llm_call w (commit (load (ainvoke sv tid [HumanMessage text]))
                                   [HumanMessage text] 0 chat_node_))
                [to_message reply] (seconds (llm_with_tools w prompt)) chat_node_)
        END).
  { cbn [steps]. rewrite (step_start w (ainvoke _ _ _)) by done.
    rewrite step_chat_node by done. cbv zeta.
    change (chat_prompt w _) with prompt. rewrite Hr.
    unfold route_of, to_message. cbn [pending_tool_calls]. by rewrite Hc. }
  assert (Hn : node (steps w 2 (ainvoke sv tid [HumanMessage text])) = END)
    by (rewrite Hs; by apply first_proceed).
  subst r. rewrite (steps_finished_le w 2 (2 + n));
    [|lia|unfold finished; by rewrite Hn].
  split; [exact Hn|]. rewrite Hs. split_and!; [done| |].
  - cbn. unfold add_messages. by rewrite <- (assoc_L (++)).
  - cbn [proceed commit saver thread_id state log_llm_call]. apply lookup_insert_eq.
Qed.

(** The run of a request on whose first call the service raises. *)
Lemma failed_run (w : World) sv tid text (e : Exception) (n : nat) :
  let prompt := (SYSTEM_PROMPT w :: thread_messages sv tid ++ [HumanMessage text])%list in
  value (llm_with_tools w prompt) = Raise e →
  let r := steps w (2 + n) (ainvoke sv tid [HumanMessage text]) in
  node r = RAISED e
  ∧ clock r = seconds (llm_with_tools w prompt)
  ∧ thread_messages (saver r) tid = (thread_messages sv tid ++ [HumanMessage text])%list.
Proof.
  intros prompt Hr r.
  assert (Hs : steps w 2 (ainvoke sv tid [HumanMessage text])
    = fail (log_llm_call w (commit (load (ainvoke sv tid [HumanMessage text]))
                              [HumanMessage text] 0 chat_node_))
           e (seconds (llm_with_tools w prompt))).
  { cbn [steps]. rewrite (step_start w (ainvoke _ _ _)) by done.
    rewrite step_chat_node by done. cbv zeta.
    change (chat_prompt w _) with prompt. by rewrite Hr. }
  subst r. rewrite (steps_finished_le w 2 (2 + n)); [|lia|by rewrite Hs].
  rewrite Hs. split_and!; [done|done|].
  cbn [fail commit saver thread_id state log_llm_call load ainvoke].
  unfold thread_messages at 1, aget_state. by rewrite lookup_insert_eq.
Qed.

Lemma user_entries_from_graph (l : list BaseMessage) :
  Forall (λ m, from_graph m = true) l → user_entries (history_entry <$> l) = [].
Proof.
  unfold user_entries. induction 1 as [|m l Hm _ IH]; [done|].
  cbn [fmap list_fmap]. rewrite filter_cons_False; [exact IH|].
  by destruct m.
Qed.

(** The run [chat] starts reads the checkpointer the request found. *)
Lemma chat_run_chosen (w : World) (n : nat) (data : ChatData) (text : string) (a : App) :
  chat_run w n (chosen_thread_id w data a).1 text (chosen_thread_id w data a).2
  = steps w n (ainvoke (checkpointer a) (chosen_thread_id w data a).1 [HumanMessage text]).
Proof. unfold chat_run. by rewrite chosen_thread_id_checkpointer. Qed.

End chat_facts.

(** ** Further properties of the routes *)

Module route_extras.
Import mcp_chatbot_backend app_flask invariants shape graph_facts run_facts spec console.
Import route_claims bridge_claims chat_facts.

(** X5: submit then history.  When the first reply of the reasoning
    service carries no tool call and arrives within 60 seconds, [chat]
    answers 200 with that reply's text, and the thread's history is then
    what it was, followed by the user entry with the stripped text and
    the assistant entry with the reply. *)
Theorem chat_then_history (w : World) (n : nat) (data : ChatData) (s : string)
    (a : App) (reply : AIReply) :
  message data = Some (JString s) → strip s ≠ "" →
  let tid := (chosen_thread_id w data a).1 in
  let prompt := (SYSTEM_PROMPT w :: thread_messages (checkpointer a) tid
                   ++ [HumanMessage (strip s)])%list in
  value (llm_with_tools w prompt) = Ok reply → reply_tool_calls reply = [] →
  (seconds (llm_with_tools w prompt) ≤ 60)%nat →
  let out := chat w (2 + n) (Some data) a in
  out.1 = Some (ChatReply (reply_content reply) tid None, 200)
  ∧ fetch_history out.2 tid
    = (fetch_history a tid
         ++ [{| role := "user"; entry_content := strip s |};
             {| role := "assistant"; entry_content := reply_content reply |}])%list.
Proof.
  intros Hm Hs tid prompt Hr Hc Ht out. subst out.
  destruct (plain_run w (checkpointer a) tid (strip s) reply n Hr Hc)
    as (Hn & Hclock & Hmsgs & Hsaver).
  split.
  - rewrite (chat_with_text w _ data s a Hm Hs). cbv zeta.
    rewrite chat_run_chosen. fold tid.
    unfold finished, process_message. rewrite Hn, Hclock.
    rewrite run_async_in_time by done.
    unfold values. rewrite lookup_singleton_eq, lookup_singleton_ne by done.
    rewrite Hmsgs.
    change [HumanMessage (strip s); to_message reply]
      with ([HumanMessage (strip s)] ++ [to_message reply])%list.
    by rewrite (assoc_L (++)), last_snoc.
  - rewrite !fetch_history_persisted.
    rewrite (chat_text_state w _ data s a Hm Hs). cbv zeta.
    rewrite chat_run_chosen. fold tid.
    cbn [checkpointer]. unfold thread_messages at 1, aget_state.
    rewrite Hsaver. cbn [from_option]. rewrite Hmsgs. by rewrite fmap_app.
Qed.

Lemma chat_then_history_witness :
  let out := chat (plain_world 3) 2 (say "  hi ") fresh_app in
  out.1 = Some (ChatReply "Hello!" "thread-0" None, 200)
  ∧ fetch_history out.2 "thread-0"
    = (fetch_history fresh_app "thread-0"
         ++ [{| role := "user"; entry_content := "hi" |};
             {| role := "assistant"; entry_content := "Hello!" |}])%list.
Proof.
  apply (chat_then_history (plain_world 3) 0
           {| message := Some (JString "  hi "); thread_id_field := None |} "  hi "
           fresh_app {| reply_content := "Hello!"; reply_tool_calls := [] |}).
  - reflexivity.
  - vm_compute. discriminate.
  - reflexivity.
  - reflexivity.
  - vm_compute. lia.
Defined.

(** X6: a call that outlasts the wait is not undone.  When the reply
    arrives after more than 60 seconds, [chat] answers 500 with the empty
    text of [TimeoutError], yet the run has gone through: the history
    holds the user entry and the assistant entry the caller never saw. *)
Theorem chat_timeout_still_commits (w : World) (n : nat) (data : ChatData) (s : string)
    (a : App) (reply : AIReply) :
  message data = Some (JString s) → strip s ≠ "" →
  let tid := (chosen_thread_id w data a).1 in
  let prompt := (SYSTEM_PROMPT w :: thread_messages (checkpointer a) tid
                   ++ [HumanMessage (strip s)])%list in
  value (llm_with_tools w prompt) = Ok reply → reply_tool_calls reply = [] →
  (60 < seconds (llm_with_tools w prompt))%nat →
  let out := chat w (2 + n) (Some data) a in
  out.1 = Some (ErrorReply "", 500)
  ∧ fetch_history out.2 tid
    = (fetch_history a tid
         ++ [{| role := "user"; entry_content := strip s |};
             {| role := "assistant"; entry_content := reply_content reply |}])%list.
Proof.
  intros Hm Hs tid prompt Hr Hc Ht out. subst out.
  destruct (plain_run w (checkpointer a) tid (strip s) reply n Hr Hc)
    as (Hn & Hclock & Hmsgs & Hsaver).
  split.
  - rewrite (chat_with_text w _ data s a Hm Hs). cbv zeta.
    rewrite chat_run_chosen. fold tid.
    unfold finished, process_message. rewrite Hn, Hclock.
    by rewrite run_async_late.
  - rewrite !fetch_history_persisted.
    rewrite (chat_text_state w _ data s a Hm Hs). cbv zeta.
    rewrite chat_run_chosen. fold tid.
    cbn [checkpointer]. unfold thread_messages at 1, aget_state.
    rewrite Hsaver. cbn [from_option]. rewrite Hmsgs. by rewrite fmap_app.
Qed.

Lemma chat_timeout_still_commits_witness :
  let out := chat (plain_world 75) 2 (say "hi") fresh_app in
  out.1 = Some (ErrorReply "", 500)
  ∧ fetch_history out.2 "thread-0"
    = (fetch_history fresh_app "thread-0"
         ++ [{| role := "user"; entry_content := "hi" |};
             {| role := "assistant"; entry_content := "Hello!" |}])%list.
Proof.
  apply (chat_timeout_still_commits (plain_world 75) 0
           {| message := Some (JString "hi"); thread_id_field := None |} "hi"
           fresh_app {| reply_content := "Hello!"; reply_tool_calls := [] |}).
  - reflexivity.
  - vm_compute. discriminate.
  - reflexivity.
  - reflexivity.
  - vm_compute. lia.
Defined.

(** X7: when the reasoning service raises on the first call, within 60
    seconds, [chat] answers 500 with the text of the exception; the
    user's message stays recorded and no assistant entry follows it. *)
Theorem chat_service_failure (w : World) (n : nat) (data : ChatData) (s : string)
    (a : App) (e : Exception) :
  message data = Some (JString s) → strip s ≠ "" →
  let tid := (chosen_thread_id w data a).1 in
  let prompt := (SYSTEM_PROMPT w :: thread_messages (checkpointer a) tid
                   ++ [HumanMessage (strip s)])%list in
  value (llm_with_tools w prompt) = Raise e →
  (seconds (llm_with_tools w prompt) ≤ 60)%nat →
  let out := chat w (2 + n) (Some data) a in
  out.1 = Some (ErrorReply (str e), 500)
  ∧ fetch_history out.2 tid
    = (fetch_history a tid ++ [{| role := "user"; entry_content := strip s |}])%list.
Proof.
  intros Hm Hs tid prompt Hr Ht out. subst out.
  destruct (failed_run w (checkpointer a) tid (strip s) e n Hr) as (Hn & Hclock & Hmsgs).
  split.
  - rewrite (chat_with_text w _ data s a Hm Hs). cbv zeta.
    rewrite chat_run_chosen. fold tid.
    unfold finished, process_message. rewrite Hn, Hclock.
    by rewrite run_async_in_time.
  - rewrite !fetch_history_persisted.
    rewrite (chat_text_state w _ data s a Hm Hs). cbv zeta.
    rewrite chat_run_chosen. fold tid.
    cbn [checkpointer]. rewrite Hmsgs. by rewrite fmap_app.
Qed.

Lemma chat_service_failure_witness :
  let out := chat failing_world 2 (say "hi") fresh_app in
  out.1 = Some (ErrorReply "quota exceeded", 500)
  ∧ fetch_history out.2 "thread-0"
    = (fetch_history fresh_app "thread-0"
         ++ [{| role := "user"; entry_content := "hi" |}])%list.
Proof.
  apply (chat_service_failure failing_world 0
           {| message := Some (JString "hi"); thread_id_field := None |} "hi"
           fresh_app (ProviderError "quota exceeded")).
  - reflexivity.
  - vm_compute. discriminate.
  - reflexivity.
  - vm_compute. lia.
Defined.

Lemma chat_reply_thread (w : World) (n : nat) (data : ChatData) (s : string) (a : App)
    response t du status :
  message data = Some (JString s) → strip s ≠ "" →
  (chat w n (Some data) a).1 = Some (ChatReply response t du, status) →
  t = (chosen_thread_id w data a).1.
Proof.
  intros Hm Hs. rewrite (chat_with_text w n data s a Hm Hs). cbv zeta.
  destruct (finished _); [|done].
  destruct (run_async _) as [res|e]; [|done].
  destruct (res !! "messages") as [msgs|]; [|done].
  destruct (last msgs); [|done]. by intros [= _ -> _ _].
Qed.

Lemma chosen_thread_id_given (w : World) (data : ChatData) (t : string) (a : App) :
  thread_id_field data = Some t → t ≠ "" → chosen_thread_id w data a = (t, a).
Proof. unfold chosen_thread_id. intros -> Ht. by destruct t. Qed.

Lemma chosen_thread_id_absent (w : World) (data : ChatData) (a : App) :
  thread_id_field data = None →
  chosen_thread_id w data a
  = (default (uuid4 w (uuid_drawn a)) (session a),
     {| checkpointer := checkpointer a;
        session := Some (default (uuid4 w (uuid_drawn a)) (session a));
        uuid_drawn := match session a with
                      | Some _ => uuid_drawn a
                      | None => S (uuid_drawn a)
                      end;
        invocations := invocations a |}).
Proof.
  unfold chosen_thread_id, get_thread_id. intros ->.
  by destruct a as [c [t|] u i].
Qed.

(** X8: a request that names a thread runs on that thread and leaves the
    session alone: no identifier is drawn, and the session's thread id,
    if any, stays what it was. *)
Theorem chat_with_thread_id (w : World) (n : nat) (data : ChatData) (s t : string)
    (a : App) :
  message data = Some (JString s) → strip s ≠ "" →
  thread_id_field data = Some t → t ≠ "" →
  let out := chat w n (Some data) a in
  session out.2 = session a
  ∧ uuid_drawn out.2 = uuid_drawn a
  ∧ invocations out.2 = (invocations a ++ [(t, strip s)])%list
  ∧ ∀ response t' du status, out.1 = Some (ChatReply response t' du, status) → t' = t.
Proof.
  intros Hm Hs Ht Hne out. subst out.
  pose proof (chosen_thread_id_given w data t a Ht Hne) as Hc.
  rewrite (chat_text_state w n data s a Hm Hs). cbv zeta. rewrite Hc.
  split_and!; [done..|].
  intros response t' du status Hr.
  rewrite (chat_reply_thread w n data s a _ _ _ _ Hm Hs Hr). by rewrite Hc.
Qed.

Lemma chat_with_thread_id_witness :
  let out := chat tool_world 4
               (Some {| message := Some (JString "list my files");
                        thread_id_field := Some "orders" |})
               app_after_tool_turn in
  session out.2 = session app_after_tool_turn
  ∧ uuid_drawn out.2 = uuid_drawn app_after_tool_turn
  ∧ invocations out.2
    = (invocations app_after_tool_turn ++ [("orders", strip "list my files")])%list
  ∧ ∀ response t' du status,
      out.1 = Some (ChatReply response t' du, status) → t' = "orders".
Proof.
  apply (chat_with_thread_id tool_world 4
           {| message := Some (JString "list my files");
              thread_id_field := Some "orders" |}
           "list my files" "orders" app_after_tool_turn).
  - reflexivity.
  - vm_compute. discriminate.
  - reflexivity.
  - discriminate.
Defined.

Lemma chat_string_session (w : World) (n : nat) (data : ChatData) (s : string) (a : App) :
  message data = Some (JString s) →
  session (chat w n (Some data) a).2 = session (chosen_thread_id w data a).2
  ∧ uuid_drawn (chat w n (Some data) a).2 = uuid_drawn (chosen_thread_id w data a).2.
Proof.
  intros Hm. destruct (decide (strip s = "")) as [He|Hne].
  - destruct (chat_without_text w n data a) as [[-> _]|[e Hc]]; [|done|].
    + intros s' Hs'. rewrite Hm in Hs'. by injection Hs' as <-.
    + exfalso. revert Hc. unfold chat. cbv zeta. cbn [from_option Datatypes.id].
      rewrite Hm. cbn [from_option Datatypes.id].
      destruct (chosen_thread_id w data a). by rewrite decide_True.
  - by rewrite (chat_text_state w n data s a Hm Hne).
Qed.

(** X9: the session's thread sticks.  After a request with a text,
    blank or not, and no thread id, the session holds a thread id; a
    later request without thread id is invoked on that same thread and
    draws no new identifier. *)
Theorem chat_session_sticks (w : World) (n1 n2 : nat) (d1 d2 : ChatData)
    (s1 s2 : string) (a : App) :
  message d1 = Some (JString s1) → thread_id_field d1 = None →
  message d2 = Some (JString s2) → strip s2 ≠ "" → thread_id_field d2 = None →
  let tid := default (uuid4 w (uuid_drawn a)) (session a) in
  let a1 := (chat w n1 (Some d1) a).2 in
  let out := chat w n2 (Some d2) a1 in
  session a1 = Some tid
  ∧ uuid_drawn out.2 = uuid_drawn a1
  ∧ invocations out.2 = (invocations a1 ++ [(tid, strip s2)])%list.
Proof.
  intros Hm1 Ht1 Hm2 Hs2 Ht2 tid a1 out.
  assert (Hs : session a1 = Some tid).
  { subst a1. rewrite (proj1 (chat_string_session w n1 d1 s1 a Hm1)).
    by rewrite (chosen_thread_id_absent w d1 a Ht1). }
  split; [done|]. subst out.
  rewrite (chat_text_state w n2 d2 s2 a1 Hm2 Hs2). cbv zeta.
  rewrite (chosen_thread_id_absent w d2 a1 Ht2). cbn [fst snd uuid_drawn invocations].
  by rewrite Hs.
Qed.

Lemma chat_session_sticks_witness :
  let a1 := (chat tool_world 4 (say "   ") fresh_app).2 in
  let out := chat tool_world 4 (say "list my files") a1 in
  session a1 = Some "thread-0"
  ∧ uuid_drawn out.2 = uuid_drawn a1
  ∧ invocations out.2 = (invocations a1 ++ [("thread-0", strip "list my files")])%list.
Proof.
  apply (chat_session_sticks tool_world 4 4
           {| message := Some (JString "   "); thread_id_field := None |}
           {| message := Some (JString "list my files"); thread_id_field := None |}
           "   " "list my files" fresh_app).
  - reflexivity.
  - reflexivity.
  - reflexivity.
  - vm_compute. discriminate.
  - reflexivity.
Defined.

(** X10: [new_thread] answers a newly drawn identifier and puts it in
    the session without creating a checkpoint, so the thread list is
    unchanged; the next request with a text and no thread id is invoked
    on that identifier, whatever thread the session held before. *)
Theorem new_thread_then_chat (w : World) (n : nat) (data : ChatData) (s : string)
    (a : App) :
  message data = Some (JString s) → strip s ≠ "" → thread_id_field data = None →
  let id := uuid4 w (uuid_drawn a) in
  let out := chat w n (Some data) (new_thread w a).2 in
  (new_thread w a).1 = (NewThreadReply id, 200)
  ∧ get_threads (new_thread w a).2 = get_threads a
  ∧ invocations out.2 = (invocations a ++ [(id, strip s)])%list
  ∧ ∀ response t du status, out.1 = Some (ChatReply response t du, status) → t = id.
Proof.
  intros Hm Hs Ht id out. subst out. split_and!; [done..| |].
  - rewrite (chat_text_state w n data s _ Hm Hs). cbv zeta.
    by rewrite (chosen_thread_id_absent w data _ Ht).
  - intros response t du status Hr.
    rewrite (chat_reply_thread w n data s _ _ _ _ _ Hm Hs Hr).
    by rewrite (chosen_thread_id_absent w data _ Ht).
Qed.

Lemma new_thread_then_chat_witness :
  let id := uuid4 tool_world (uuid_drawn app_after_tool_turn) in
  let out := chat tool_world 4 (say "list my files")
               (new_thread tool_world app_after_tool_turn).2 in
  (new_thread tool_world app_after_tool_turn).1 = (NewThreadReply id, 200)
  ∧ get_threads (new_thread tool_world app_after_tool_turn).2
    = get_threads app_after_tool_turn
  ∧ invocations out.2
    = (invocations app_after_tool_turn ++ [(id, strip "list my files")])%list
  ∧ ∀ response t du status, out.1 = Some (ChatReply response t du, status) → t = id.
Proof.
  apply (new_thread_then_chat tool_world 4
           {| message := Some (JString "list my files"); thread_id_field := None |}
           "list my files" app_after_tool_turn).
  - reflexivity.
  - vm_compute. discriminate.
  - reflexivity.
Defined.

(** X11: once the run of a request with a text has made its first
    super-step, its thread is among the threads [get_threads] lists,
    whatever the run then does, and no other thread is added. *)
Theorem get_threads_after_chat (w : World) (n : nat) (data : ChatData) (s : string)
    (a : App) :
  message data = Some (JString s) → strip s ≠ "" → (1 ≤ n)%nat →
  app_flask.retrieve_all_threads (chat w n (Some data) a).2
  = {[(chosen_thread_id w data a).1]} ∪ app_flask.retrieve_all_threads a.
Proof.
  intros Hm Hs Hn. destruct n as [|n]; [lia|].
  unfold app_flask.retrieve_all_threads.
  rewrite (chat_text_state w _ data s a Hm Hs). cbv zeta. rewrite chat_run_chosen.
  cbn [checkpointer]. apply run_dom.
Qed.

Lemma get_threads_after_chat_witness :
  app_flask.retrieve_all_threads (chat failing_world 1 (say "hi") fresh_app).2
  = {[(chosen_thread_id failing_world
         {| message := Some (JString "hi"); thread_id_field := None |}
         fresh_app).1]}
    ∪ app_flask.retrieve_all_threads fresh_app.
Proof.
  apply (get_threads_after_chat failing_world 1
           {| message := Some (JString "hi"); thread_id_field := None |} "hi" fresh_app).
  - reflexivity.
  - vm_compute. discriminate.
  - lia.
Defined.

(** The replies [chat] gives to a request with a non-blank text. *)
Lemma chat_text_reply_kind (w : World) (n : nat) (data : ChatData) (s : string) (a : App)
    (reply : Reply) (status : nat) :
  message data = Some (JString s) → strip s ≠ "" →
  (chat w n (Some data) a).1 = Some (reply, status) →
  (success reply = true ∧ status = 200) ∨ (success reply = false ∧ status = 500).
Proof.
  intros Hm Hs. rewrite (chat_with_text w n data s a Hm Hs). cbv zeta.
  destruct (finished _); [|done].
  destruct (run_async _) as [res|e]; [|intros [= <- <-]; by right].
  destruct (res !! "messages") as [msgs|]; [|intros [= <- <-]; by right].
  destruct (last msgs); intros [= <- <-]; [by left|by right].
Qed.



(** X13: on the chat route the ["success"] field and the HTTP status
    agree, whatever the request: a reply says success exactly when its
    status is 200, and the status is otherwise 400 or 500.  [new_thread]
    answers success with 200 and [clear_thread] failure with 501. *)
Theorem success_iff_status_200 (w : World) (n : nat) (body : Body) (thread_id : string)
    (a : App) :
  (∀ reply status, (chat_route w n body a).1 = Some (reply, status) →
     (success reply = true ↔ status = 200)
     ∧ (status = 200 ∨ status = 400 ∨ status = 500))
  ∧ (success (new_thread w a).1.1 = true ∧ (new_thread w a).1.2 = 200)
  ∧ (success (clear_thread thread_id a).1.1 = false ∧ (clear_thread thread_id a).1.2 = 501).
Proof.
  split_and!; try done.
  intros reply status.
  destruct body as [e|ty|request_json]; cbn [chat_route].
  1,2: intros [= <- <-]; split; try done; auto.
  rewrite chat_data_of. set (data := data_of request_json).
  destruct (text_or_not data) as [(s & Hm & Hs)|Hb].
  - intros Hr.
    destruct (chat_text_reply_kind w n data s a reply status Hm Hs Hr)
      as [[-> ->]|[-> ->]]; split; try done; auto.
  - destruct (chat_without_text w n data a Hb) as [[-> _]|[e ->]];
      intros [= <- <-]; split; try done; auto.
Qed.

Lemma success_iff_status_200_witness :
  (success (ErrorReply "No message provided") = true ↔ 400 = 200)
  ∧ (400 = 200 ∨ 400 = 400 ∨ 400 = 500).
Proof.
  apply (proj1 (success_iff_status_200 tool_world 4 (JsonData (say "  ")) "thread-0"
                  app_after_tool_turn)
           (ErrorReply "No message provided") 400).
  vm_compute. reflexivity.
Defined.

(** X14: a request with a text adds exactly one user entry to its
    thread's history, the one with the stripped text, as soon as its run
    has made its first super-step; everything else the run adds is an
    assistant entry. *)
Theorem chat_adds_one_user_entry (w : World) (n : nat) (data : ChatData) (s : string)
    (a : App) :
  message data = Some (JString s) → strip s ≠ "" → (1 ≤ n)%nat →
  let tid := (chosen_thread_id w data a).1 in
  user_entries (fetch_history (chat w n (Some data) a).2 tid)
  = (user_entries (fetch_history a tid)
       ++ [{| role := "user"; entry_content := strip s |}])%list.
Proof.
  intros Hm Hs Hn tid. destruct n as [|n]; [lia|].
  rewrite !fetch_history_persisted.
  rewrite (chat_text_state w _ data s a Hm Hs). cbv zeta. rewrite chat_run_chosen.
  fold tid. cbn [checkpointer].
  destruct (run_grown_persisted w (checkpointer a) tid [HumanMessage (strip s)] n)
    as (rest & -> & Hrest).
  rewrite !fmap_app. unfold user_entries at 1. rewrite !filter_app.
  fold (user_entries (history_entry <$> thread_messages (checkpointer a) tid)).
  fold (user_entries (history_entry <$> rest)).
  rewrite (user_entries_from_graph rest Hrest). by rewrite (right_id_L [] (++)).
Qed.

Lemma chat_adds_one_user_entry_witness :
  let tid := (chosen_thread_id tool_world
                {| message := Some (JString "list my files"); thread_id_field := None |}
                app_after_tool_turn).1 in
  user_entries
    (fetch_history (chat tool_world 3 (say "list my files") app_after_tool_turn).2 tid)
  = (user_entries (fetch_history app_after_tool_turn tid)
       ++ [{| role := "user"; entry_content := strip "list my files" |}])%list.
Proof.
  apply (chat_adds_one_user_entry tool_world 3
           {| message := Some (JString "list my files"); thread_id_field := None |}
           "list my files" app_after_tool_turn).
  - reflexivity.
  - vm_compute. discriminate.
  - lia.
Defined.

(** X15: the text [chat] answers with is the text of the last message
    stored for the thread it names, and that message is an [AIMessage]
    without tool call: a successful reply never carries a tool request
    or a tool result, and the history ends with it. *)
Theorem chat_response_is_last_message (w : World) (n : nat) request_json (a : App)
    (response t : string) du (status : nat) :
  (chat w n request_json a).1 = Some (ChatReply response t du, status) →
  last (thread_messages (checkpointer (chat w n request_json a).2) t)
    = Some (AIMessage response [])
  ∧ last (fetch_history (chat w n request_json a).2 t)
    = Some {| role := "assistant"; entry_content := response |}.
Proof.
  rewrite chat_data_of. set (data := data_of request_json). intros Hr.
  assert (Hl : last (thread_messages (checkpointer (chat w n (Some data) a).2) t)
               = Some (AIMessage response [])).
  { destruct (text_or_not data) as [(s & Hm & Hs)|Hb].
    - pose proof (chat_reply_thread w n data s a _ _ _ _ Hm Hs Hr) as ->.
      rewrite (chat_text_state w n data s a Hm Hs). cbv zeta. cbn [checkpointer].
      revert Hr. rewrite (chat_with_text w n data s a Hm Hs). cbv zeta.
      set (tid := (chosen_thread_id w data a).1).
      set (r := chat_run w n tid (strip s) (chosen_thread_id w data a).2).
      destruct (finished r); [|done].
      destruct (run_async (process_message r)) as [res|e] eqn:Hres; [|done].
      destruct (process_message_ok r res Hres) as [Hend ->].
      unfold values. rewrite lookup_singleton_eq.
      destruct (last (messages (state r))) as [last_msg|] eqn:Hlast; [|done].
      intros [= <- _].
      destruct (run_answered w _ tid [HumanMessage (strip s)] n Hend) as [text Ht].
      fold (chat_run w n tid (strip s) (chosen_thread_id w data a).2) in Ht. fold r in Ht.
      destruct (steps_synced w n _
                  (ainvoke_synced (checkpointer (chosen_thread_id w data a).2) tid
                     [HumanMessage (strip s)])) as [Hst|Hsy].
      + fold (chat_run w n tid (strip s) (chosen_thread_id w data a).2) in Hst.
        fold r in Hst. congruence.
      + rewrite steps_thread_id in Hsy. cbn [ainvoke thread_id] in Hsy.
        fold (chat_run w n tid (strip s) (chosen_thread_id w data a).2) in Hsy.
        fold r in Hsy. unfold thread_messages, aget_state. rewrite Hsy.
        cbn [from_option]. rewrite Hlast in Ht. injection Ht as ->.
        by rewrite Hlast.
    - by destruct (chat_without_text w n data a Hb) as [[Hc _]|[e Hc]];
        rewrite Hc in Hr. }
  split; [exact Hl|].
  by rewrite fetch_history_persisted, fmap_last, Hl.
Qed.

Lemma chat_response_is_last_message_witness :
  last (thread_messages
          (checkpointer (chat tool_world 4 (say "list my files") fresh_app).2) "thread-0")
    = Some (AIMessage "You have two files." [])
  ∧ last (fetch_history (chat tool_world 4 (say "list my files") fresh_app).2 "thread-0")
    = Some {| role := "assistant"; entry_content := "You have two files." |}.
Proof.
  apply (chat_response_is_last_message tool_world 4 (say "list my files") fresh_app
           "You have two files." "thread-0" None 200).
  vm_compute. reflexivity.
Defined.

(** X16: with a reasoning service that never asks for a tool, [chat]
    answers every request once its run is given two super-steps: with
    the assistant's text or with a failure reply, never with nothing. *)
Theorem chat_always_answers (w : World) (n : nat) request_json (a : App) :
  never_calling w → (2 ≤ n)%nat → is_Some (chat w n request_json a).1.
Proof.
  intros Hw Hn. rewrite chat_data_of. set (data := data_of request_json).
  destruct (text_or_not data) as [(s & Hm & Hs)|Hb].
  - rewrite (chat_with_text w n data s a Hm Hs). cbv zeta. unfold chat_run.
    replace n with (2 + (n - 2))%nat by lia.
    rewrite (never_calling_finished w _ _ _ _ Hw).
    destruct (run_async _) as [res|e]; [|by eexists].
    destruct (res !! "messages") as [msgs|]; [|by eexists].
    destruct (last msgs); by eexists.
  - destruct (chat_without_text w n data a Hb) as [[-> _]|[e ->]]; by eexists.
Qed.

Lemma chat_always_answers_witness :
  is_Some (chat (plain_world 3) 2 (say "hi") fresh_app).1.
Proof.
  apply (chat_always_answers (plain_world 3) 2 (say "hi") fresh_app).
  - intros prompt reply [= <-]. reflexivity.
  - lia.
Defined.

(** X17: a request touches the checkpoints of one thread only, the one
    it runs on: the stored state of every other thread is the same after
    [chat] as before, however far the run got. *)
Theorem chat_leaves_other_threads (w : World) (n : nat) request_json (a : App)
    (t : string) :
  t ≠ (chosen_thread_id w (data_of request_json) a).1 →
  checkpointer (chat w n request_json a).2 !! t = checkpointer a !! t.
Proof.
  rewrite chat_data_of. set (data := data_of request_json). intros Ht.
  destruct (text_or_not data) as [(s & Hm & Hs)|Hb].
  - rewrite (chat_text_state w n data s a Hm Hs). cbv zeta. rewrite chat_run_chosen.
    cbn [checkpointer]. by rewrite steps_other_threads.
  - destruct (chat_without_text w n data a Hb) as [[-> _]|[e ->]]; cbn [snd]; [|done].
    by rewrite chosen_thread_id_checkpointer.
Qed.

Lemma chat_leaves_other_threads_witness :
  checkpointer
    (chat tool_world 4
       (Some {| message := Some (JString "hi"); thread_id_field := Some "orders" |})
       app_after_tool_turn).2 !! "thread-0"
  = checkpointer app_after_tool_turn !! "thread-0".
Proof.
  apply (chat_leaves_other_threads tool_world 4
           (Some {| message := Some (JString "hi"); thread_id_field := Some "orders" |})
           app_after_tool_turn "thread-0").
  vm_compute. discriminate.
Defined.

End route_extras.

(** ** The console modes *)

Module console_extras.
Import mcp_chatbot_backend invariants shape graph_facts run_facts spec console.

Section WithWorld.
Context (w : World).

Lemma invoke_and_print_db show text (n : nat) (c : Console) :
  db (invoke_and_print w show text n c)
  = saver (steps w n (ainvoke (db c) (current_thread c) [HumanMessage text])).
Proof.
  unfold invoke_and_print. destruct (node _); try done.
  destruct (values _ !! "messages") as [msgs|]; [|done].
  by destruct (last msgs) as [[]|].
Qed.

Lemma invoke_and_print_thread show text (n : nat) (c : Console) :
  current_thread (invoke_and_print w show text n c) = current_thread c.
Proof.
  unfold invoke_and_print. destruct (node _); try done.
  destruct (values _ !! "messages") as [msgs|]; [|done].
  by destruct (last msgs) as [[]|].
Qed.

Lemma invoke_and_print_mode show text (n : nat) (c : Console) :
  mode (invoke_and_print w show text n c)
  = if finished (steps w n (ainvoke (db c) (current_thread c) [HumanMessage text]))
    then mode c else Awaiting.
Proof.
  unfold invoke_and_print, finished. destruct (node _); try done.
  destruct (values _ !! "messages") as [msgs|]; [|done].
  by destruct (last msgs) as [[]|].
Qed.

Lemma interactive_line_extends line (n : nat) (c : Console) :
  extends (db c) (db (interactive_line w line n c)).
Proof.
  unfold interactive_line. repeat case_decide; try apply extends_refl.
  rewrite invoke_and_print_db. apply steps_extends, ainvoke_synced.
Qed.

Lemma interactive_turn_extends (c : Console) (i : Input) :
  extends (db c) (db (interactive_turn w c i)).
Proof.
  unfold interactive_turn. destruct (mode c); try apply extends_refl.
  destruct i; [apply interactive_line_extends|apply extends_refl].
Qed.

Lemma interactive_left (c : Console) (inputs : list Input) :
  mode c ≠ Reading → foldl (interactive_turn w) c inputs = c.
Proof.
  intros Hm. induction inputs as [|i inputs IH]; [done|].
  cbn [foldl]. unfold interactive_turn at 2. by destruct (mode c).
Qed.

Lemma finished_after_a_step sv tid inp (n : nat) :
  finished (steps w n (ainvoke sv tid inp)) = true → ∃ m, n = S m.
Proof. destruct n; [done|by eexists]. Qed.

End WithWorld.

(** X18: input after [quit] or [exit] is never read.  Whatever came
    before, once a line that strips and lower-cases to one of the two
    words has been entered, the rest of the input changes nothing: no
    run is started and nothing more is printed. *)
Theorem interactive_test_stops_at_quit (w : World) sv (drawn0 : nat)
    (before after : list Input) (line : string) (n : nat) :
  lower (strip line) = "quit" ∨ lower (strip line) = "exit" →
  interactive_test w sv drawn0 (before ++ Line line n :: after)
  = interactive_test w sv drawn0 (before ++ [Line line n]).
Proof.
  intros Hq. unfold interactive_test.
  rewrite !foldl_app. cbn [foldl].
  apply interactive_left.
  set (c := foldl _ _ before).
  unfold interactive_turn. destruct (mode c) eqn:Hm; [|by rewrite Hm..].
  unfold interactive_line.
  rewrite decide_False by (by destruct Hq as [Hq|Hq]; intros He; rewrite He in Hq).
  rewrite decide_True; [done|].
  destruct Hq as [->| ->]; [by left|by right; left].
Qed.

Lemma interactive_test_stops_at_quit_witness :
  interactive_test tool_world ∅ 0
    ([Line "list my files" 4] ++ Line "  QUIT " 0 :: [Line "more" 4; Line "new" 0])
  = interactive_test tool_world ∅ 0 ([Line "list my files" 4] ++ [Line "  QUIT " 0]).
Proof.
  apply (interactive_test_stops_at_quit tool_world ∅ 0 [Line "list my files" 4]
           [Line "more" 4; Line "new" 0] "  QUIT " 0).
  left. reflexivity.
Defined.

(** X19: a console session is append-only too.  Whatever is typed, and
    however far each run gets, every thread's stored messages at the
    start are an initial segment of its stored messages at the end. *)
Theorem interactive_test_append_only (w : World) sv (drawn0 : nat) (inputs : list Input)
    (tid : string) :
  thread_messages sv tid
    `prefix_of` thread_messages (db (interactive_test w sv drawn0 inputs)) tid.
Proof.
  unfold interactive_test.
  set (c0 := {| current_thread := uuid4 w drawn0; db := sv; drawn := S drawn0;
                printed := _; mode := Reading |}).
  change sv with (db c0) at 1. generalize c0. clear c0.
  induction inputs as [|i inputs IH]; intros c; [done|].
  cbn [foldl]. etrans; [apply (interactive_turn_extends w c i)|apply IH].
Qed.

(** X20: the [new] command moves the session to a newly drawn thread id
    without writing anything, and from then on the thread that was
    current is left alone, as long as the drawn id differs from it. *)
Theorem interactive_new_leaves_old_thread (w : World) (c : Console) (line : string)
    (n : nat) (next : Input) :
  mode c = Reading → lower (strip line) = "new" →
  uuid4 w (drawn c) ≠ current_thread c →
  let c1 := interactive_turn w c (Line line n) in
  current_thread c1 = uuid4 w (drawn c)
  ∧ db c1 = db c
  ∧ db (interactive_turn w c1 next) !! current_thread c = db c !! current_thread c.
Proof.
  intros Hm Hn Hne c1.
  assert (Hc1 : c1 = {| current_thread := uuid4 w (drawn c);
                        db := db c;
                        drawn := S (drawn c);
                        printed := printed c
                                   ++ [PrintStarted (substring 0 8 (uuid4 w (drawn c)))];
                        mode := mode c |}).
  { subst c1. unfold interactive_turn. rewrite Hm. unfold interactive_line.
    rewrite decide_False by (intros He; by rewrite He in Hn).
    rewrite decide_False.
    2:{ rewrite Hn. intros [He|[He|He]%elem_of_cons]%elem_of_cons; try done.
        by apply elem_of_nil in He. }
    rewrite decide_True by done. by rewrite Hm. }
  rewrite Hc1. split_and!; [done..|].
  unfold interactive_turn. cbn [mode]. rewrite Hm.
  destruct next as [line' n'|]; [|done].
  unfold interactive_line. repeat case_decide; try done.
  rewrite invoke_and_print_db. cbn [db current_thread].
  by rewrite steps_other_threads.
Qed.

Lemma interactive_new_leaves_old_thread_witness :
  let c := interactive_test tool_world ∅ 0 [Line "list my files" 4] in
  let c1 := interactive_turn tool_world c (Line " New" 0) in
  current_thread c1 = uuid4 tool_world (drawn c)
  ∧ db c1 = db c
  ∧ db (interactive_turn tool_world c1 (Line "more" 4)) !! current_thread c
    = db c !! current_thread c.
Proof.
  apply (interactive_new_leaves_old_thread tool_world
           (interactive_test tool_world ∅ 0 [Line "list my files" 4]) " New" 0
           (Line "more" 4)).
  - reflexivity.
  - reflexivity.
  - vm_compute. discriminate.
Defined.

(** X21: [automated_test] puts both questions on the one thread it
    draws.  When it runs to completion, that thread holds what it held
    before, then the first question and what the graph produced for it,
    then the second question and what the graph produced for it; a
    failure of the first question does not keep the second from being
    asked, and no other thread is written. *)
Theorem automated_test_asks_both_on_one_thread (w : World) sv (drawn0 : nat)
    (budget : nat → nat) :
  let c := automated_test w sv drawn0 budget in
  let tid := uuid4 w drawn0 in
  mode c = Stopped →
  (∃ rest1 rest2,
      thread_messages (db c) tid
        = (thread_messages sv tid
             ++ HumanMessage "Hello! What can you help me with?" :: rest1
             ++ HumanMessage "What tools do you have access to?" :: rest2)%list
      ∧ Forall (λ m, from_graph m = true) rest1
      ∧ Forall (λ m, from_graph m = true) rest2)
  ∧ ∀ t, t ≠ tid → db c !! t = sv !! t.
Proof.
  intros c tid. subst c. unfold automated_test, test_questions.
  cbn [ask_questions].
  set (c0 := print _ [PrintTest 1 _]).
  set (c1 := invoke_and_print w PrintResponse _ (budget 1%nat) c0).
  assert (Hdb1 : db c1 = saver (steps w (budget 1%nat)
                                  (ainvoke sv tid
                                     [HumanMessage "Hello! What can you help me with?"])))
    by apply invoke_and_print_db.
  assert (Hth1 : current_thread c1 = tid) by apply invoke_and_print_thread.
  pose proof (invoke_and_print_mode w PrintResponse
                "Hello! What can you help me with?" (budget 1%nat) c0) as Hm1.
  fold c1 in Hm1. cbn [print c0 db current_thread mode] in Hm1.
  destruct (finished _) eqn:Hf1 in Hm1; rewrite Hm1;
    [|intros Hs; cbv iota in Hs; congruence].
  destruct (finished_after_a_step w _ _ _ _ Hf1) as [m1 Hb1].
  set (c2 := invoke_and_print w PrintResponse _ (budget 2%nat) (print c1 _)).
  assert (Hdb2 : db c2 = saver (steps w (budget 2%nat)
                                  (ainvoke (db c1) tid
                                     [HumanMessage "What tools do you have access to?"]))).
  { subst c2. rewrite invoke_and_print_db. cbn [print db current_thread].
    by rewrite Hth1. }
  pose proof (invoke_and_print_mode w PrintResponse
                "What tools do you have access to?" (budget 2%nat)
                (print c1 [PrintTest 2 "What tools do you have access to?"])) as Hm2.
  fold c2 in Hm2. cbn [print db current_thread mode] in Hm2.
  rewrite Hth1, Hm1 in Hm2.
  destruct (finished _) eqn:Hf2 in Hm2; rewrite Hm2;
    [|intros Hs; cbv iota in Hs; congruence].
  destruct (finished_after_a_step w _ _ _ _ Hf2) as [m2 Hb2].
  intros _. cbn [set_mode print db]. rewrite Hdb2. split.
  - rewrite Hb2.
    destruct (run_grown_persisted w (db c1) tid
                [HumanMessage "What tools do you have access to?"] m2)
      as (rest2 & -> & Hr2).
    rewrite Hdb1, Hb1.
    destruct (run_grown_persisted w sv tid
                [HumanMessage "Hello! What can you help me with?"] m1)
      as (rest1 & -> & Hr1).
    exists rest1, rest2. split_and!; [|done..].
    by rewrite <- !(assoc_L (++)).
  - intros t Ht. rewrite steps_other_threads by done. cbn [ainvoke saver].
    rewrite Hdb1. by rewrite steps_other_threads.
Qed.

Lemma automated_test_asks_both_on_one_thread_witness :
  let c := automated_test failing_world ∅ 0 (λ _, 2%nat) in
  let tid := uuid4 failing_world 0 in
  (∃ rest1 rest2,
      thread_messages (db c) tid
        = (thread_messages ∅ tid
             ++ HumanMessage "Hello! What can you help me with?" :: rest1
             ++ HumanMessage "What tools do you have access to?" :: rest2)%list
      ∧ Forall (λ m, from_graph m = true) rest1
      ∧ Forall (λ m, from_graph m = true) rest2)
  ∧ ∀ t, t ≠ tid → db c !! t = (∅ : gmap string ChatState) !! t.
Proof.
  apply (automated_test_asks_both_on_one_thread failing_world ∅ 0 (λ _, 2%nat)).
  reflexivity.
Defined.

End console_extras.

(** ** The tools round *)

Module tool_round.
Import mcp_chatbot_backend invariants shape graph_facts run_facts spec console.
Import graph_claims.

Lemma step_called (w : World) (r : Run) : called (step w r).
Proof.
  destruct (node r) eqn:Hn.
  - rewrite (step_start w r Hn). by intros ?.
  - rewrite (step_chat_node w r Hn). cbn zeta.
    destruct (value (llm_with_tools w (chat_prompt w (state r)))) as [reply|e];
      [|by intros ?].
    unfold called. cbn [proceed commit node state messages log_llm_call].
    destruct (Pos.to_nat (recursion_limit w) <? _)%nat; [by intros ?|].
    unfold add_messages, route_of, to_message. cbn [pending_tool_calls].
    destruct (reply_tool_calls reply) as [|c calls] eqn:Hc; [by intros ?|].
    intros _. rewrite last_snoc. eexists _, (c :: calls). by split.
  - rewrite (step_tools w r Hn).
    destruct (value (tool_node w (state r))); [|by intros ?].
    unfold called. cbn [proceed commit node].
    by destruct (Pos.to_nat (recursion_limit w) <? _)%nat.
  - rewrite step_finished; [intros ?; congruence|]. unfold finished. by rewrite Hn.
  - rewrite step_finished; [intros ?; congruence|]. unfold finished. by rewrite Hn.
Qed.

Lemma run_called (w : World) sv tid inp (n : nat) :
  called (steps w n (ainvoke sv tid inp)).
Proof.
  destruct n as [|n]; [by intros ?|].
  replace (S n) with (n + 1)%nat by lia. rewrite steps_add. apply step_called.
Qed.

(** X22: the [tools] node is entered only with calls to answer: the last
    stored message is then an [AIMessage] with at least one tool call.
    When every call delivers a payload, the step stores one
    [ToolMessage] per call, in call order, carrying the call's name and
    id and that payload; when a call lets an exception through, the step
    stores nothing and the run stops with the exception of one of the
    calls. *)
Theorem tools_round_answers_each_call (w : World) sv tid inp (n : nat) :
  let r := steps w n (ainvoke sv tid inp) in
  node r = tools →
  ∃ text calls,
    calls ≠ []
    ∧ last (thread_messages (saver r) tid) = Some (AIMessage text calls)
    ∧ (Forall (λ c, ∃ payload, value (run_tool w c) = Ok payload) calls →
       ∃ added,
         thread_messages (saver (step w r)) tid
           = (thread_messages (saver r) tid ++ added)%list
         ∧ Forall2 (λ c m, ∃ payload, value (run_tool w c) = Ok payload
                                      ∧ m = ToolMessage payload (name c) (id c))
                   calls added)
    ∧ (Exists (λ c, ∃ e, value (run_tool w c) = Raise e) calls →
       saver (step w r) = saver r
       ∧ ∃ e, node (step w r) = RAISED e
              ∧ Exists (λ c, value (run_tool w c) = Raise e) calls).
Proof.
  intros r Hn.
  destruct (run_called w sv tid inp n Hn) as (text & calls & Hne & Hl).
  fold r in Hl. exists text, calls.
  assert (Htid : thread_id r = tid) by apply steps_thread_id.
  assert (Hp : thread_messages (saver r) tid = messages (state r)).
  { destruct (steps_synced w n _ (ainvoke_synced sv tid inp)) as [Hs|Hs];
      fold r in Hs; [congruence|].
    unfold thread_messages, aget_state. by rewrite <- Htid, Hs. }
  split_and!; [done|by rewrite Hp| |].
  - intros Hok. destruct (tool_results_ok w calls Hok) as (added & Hg & Ha).
    exists added. split; [|done].
    rewrite Hp, (step_tools w r Hn). unfold tool_node. rewrite Hl.
    cbn [from_option pending_tool_calls]. rewrite Hg.
    cbn [proceed commit saver]. rewrite Htid.
    unfold thread_messages, aget_state. by rewrite lookup_insert_eq.
  - intros Hex. destruct (tool_results_raise w calls Hex) as (e & Hg & He).
    rewrite (step_tools w r Hn). unfold tool_node. rewrite Hl.
    cbn [from_option pending_tool_calls]. rewrite Hg.
    split; [done|]. by exists e.
Qed.

Lemma tools_round_answers_each_call_witness :
  let r := steps tool_world 2 (ainvoke ∅ "t1" [HumanMessage "list my files"]) in
  ∃ text calls,
    calls ≠ []
    ∧ last (thread_messages (saver r) "t1") = Some (AIMessage text calls)
    ∧ (Forall (λ c, ∃ payload, value (run_tool tool_world c) = Ok payload) calls →
       ∃ added,
         thread_messages (saver (step tool_world r)) "t1"
           = (thread_messages (saver r) "t1" ++ added)%list
         ∧ Forall2 (λ c m, ∃ payload, value (run_tool tool_world c) = Ok payload
                                      ∧ m = ToolMessage payload (name c) (id c))
                   calls added)
    ∧ (Exists (λ c, ∃ e, value (run_tool tool_world c) = Raise e) calls →
       saver (step tool_world r) = saver r
       ∧ ∃ e, node (step tool_world r) = RAISED e
              ∧ Exists (λ c, value (run_tool tool_world c) = Raise e) calls).
Proof.
  apply (tools_round_answers_each_call tool_world ∅ "t1"
           [HumanMessage "list my files"] 2).
  reflexivity.
Defined.

End tool_round.
